(** * pii-transformer-web: the transformation pipeline of [utils/piiTransformer]

    A shallow embedding of the hex codec, the digest helper, the OpenPGP
    adapter, the two orchestrators and the format heuristic, followed by
    the properties of the specification that were checked against them.

    JavaScript strings are sequences of UTF-16 code units ([list Z]),
    [Uint8Array]s are [list byte].  Calls that leave the repository
    (WebCrypto, openpgp) are events of a small free monad [Async]; a
    [World] gives them a meaning. *)

From Stdlib Require Import ZArith Lia List Bool String Ascii.
From Stdlib Require Import Strings.Byte.
From stdpp Require Import base tactics list.
Import ListNotations.

Local Open Scope Z_scope.

(** ** Strings *)

Definition JsString := list Z.

(** A string literal of the source (all literals there are ASCII). *)
Definition lit (s : string) : JsString :=
  map (fun a => Z.of_N (N_of_ascii a)) (list_ascii_of_string s).

(** [String.prototype.startsWith(searchString)], position 0. *)
Fixpoint startsWith (s searchString : JsString) {struct searchString} : bool :=
  match searchString, s with
  | [], _ => true
  | _ :: _, [] => false
  | p :: ps, c :: cs => (c =? p) && startsWith cs ps
  end.

(** [s.slice(start)] and [s.substr(start, len)] for in-range, non-negative
    arguments, the only ones the code passes. *)
Definition slice (s : JsString) (start : nat) : JsString := drop start s.
Definition substr (s : JsString) (start len : nat) : JsString :=
  take len (drop start s).

(** WhiteSpace and LineTerminator code points of ECMAScript, the set that
    [trim] and [parseInt] strip. *)
Definition isWhiteSpace (c : Z) : bool :=
  (c =? 0x0009) || (c =? 0x000A) || (c =? 0x000B) || (c =? 0x000C) ||
  (c =? 0x000D) || (c =? 0x0020) || (c =? 0x00A0) || (c =? 0x1680) ||
  ((0x2000 <=? c) && (c <=? 0x200A)) ||
  (c =? 0x2028) || (c =? 0x2029) || (c =? 0x202F) || (c =? 0x205F) ||
  (c =? 0x3000) || (c =? 0xFEFF).

Fixpoint trimStart (s : JsString) : JsString :=
  match s with
  | c :: s' => if isWhiteSpace c then trimStart s' else s
  | [] => []
  end.

Definition trimEnd (s : JsString) : JsString := rev (trimStart (rev s)).

Definition trim (s : JsString) : JsString := trimEnd (trimStart s).

(** [!s] for a string: the empty string is the only falsy one. *)
Definition falsy (s : JsString) : bool :=
  match s with [] => true | _ => false end.

(** ** Numbers read from and written to strings *)

(** Value of a code unit as a digit, up to radix 36. *)
Definition digitValue (c : Z) : option Z :=
  if (48 <=? c) && (c <=? 57) then Some (c - 48)
  else if (97 <=? c) && (c <=? 122) then Some (c - 97 + 10)
  else if (65 <=? c) && (c <=? 90) then Some (c - 65 + 10)
  else None.

(** The longest prefix of radix-[R] digits, read most significant first;
    [None] when there is no digit at all. *)
Fixpoint readDigits (R : Z) (s : JsString) (acc : option Z) : option Z :=
  match s with
  | [] => acc
  | c :: s' =>
      match digitValue c with
      | Some d =>
          if d <? R
          then readDigits R s' (Some (match acc with Some a => a * R + d | None => d end))
          else acc
      | None => acc
      end
  end.

(** [parseInt(string, 16)]: leading white space, one optional sign, an
    optional [0x]/[0X] prefix, then digits; [None] is NaN.  The result is
    the exact integer (the source reads at most two characters). *)
Definition parseInt16 (s : JsString) : option Z :=
  let inputS := trimStart s in
  let '(sign, unsigned) :=
    match inputS with
    | 45 :: rest => (-1, rest)
    | 43 :: rest => (1, rest)
    | _ => (1, inputS)
    end in
  let digits :=
    match unsigned with
    | 48 :: 120 :: rest => rest
    | 48 :: 88 :: rest => rest
    | _ => unsigned
    end in
  match readDigits 16 digits None with
  | Some m => Some (sign * m)
  | None => None
  end.

(** Storing a number into a [Uint8Array] element: ToUint8, NaN becomes 0. *)
Definition ToUint8 (v : option Z) : byte :=
  match v with
  | Some z => default x00 (Byte.of_N (Z.to_N (z mod 256)))
  | None => x00
  end.

Definition hexDigit (d : Z) : Z :=
  if d <? 10 then 48 + d else 97 + (d - 10).

(** [Number.prototype.toString(16)] on a non-negative integer. *)
Fixpoint toHexDigits (fuel : nat) (n : Z) (acc : JsString) : JsString :=
  match fuel with
  | O => acc
  | S fuel' =>
      if n <? 16 then hexDigit n :: acc
      else toHexDigits fuel' (n / 16) (hexDigit (n mod 16) :: acc)
  end.

Definition toString16 (n : Z) : JsString :=
  toHexDigits (S (Z.to_nat (Z.log2 n))) n [].

(** [s.padStart(targetLength, fill)] for a one-character [fill]. *)
Definition padStart (s : JsString) (targetLength : nat) (fill : Z) : JsString :=
  repeat fill (targetLength - length s) ++ s.

(** [array.join('')] *)
Definition join (parts : list JsString) : JsString := concat parts.

Definition byteValue (b : byte) : Z := Z.of_N (Byte.to_N b).

#[global] Instance byte_eq_decision : EqDecision byte := Byte.byte_eq_dec.

(** The callback [b => b.toString(16).padStart(2, '0')], used twice. *)
Definition hexByte (b : byte) : JsString :=
  padStart (toString16 (byteValue b)) 2 48.

(** ** Hex codec *)

(** The loop of [hexToUint8Array]: [for (i; i < hex.length; i += 2)
    bytes[i / 2] = parseInt(hex.substr(i, 2), 16)].  A store beyond the end
    of a typed array is ignored, as stdpp's list insert does.  Each round
    advances [i] by two, so [length hex] rounds of fuel always suffice. *)
Fixpoint hexLoop (fuel : nat) (hex : JsString) (i : nat) (bytes : list byte)
  : list byte :=
  match fuel with
  | O => bytes
  | S fuel' =>
      if (i <? length hex)%nat
      then hexLoop fuel' hex (i + 2)
             (<[(i / 2)%nat := ToUint8 (parseInt16 (substr hex i 2))]> bytes)
      else bytes
  end.

(** [new Uint8Array(hex.length / 2)]: the length goes through ToIndex,
    which truncates the half of an odd length. *)
Definition hexToUint8Array (hex : JsString) : list byte :=
  let hex := if startsWith hex (lit "\x") then slice hex 2 else hex in
  let bytes := repeat x00 (length hex / 2)%nat in
  hexLoop (length hex) hex 0 bytes.

Definition uint8ArrayToHex (bytes : list byte) : JsString :=
  let hex := join (map hexByte bytes) in
  lit "\x" ++ hex.

(** ** Code points, upper-casing and UTF-8 *)

Definition isLeadingSurrogate (c : Z) : bool := (0xD800 <=? c) && (c <=? 0xDBFF).
Definition isTrailingSurrogate (c : Z) : bool := (0xDC00 <=? c) && (c <=? 0xDFFF).
Definition isSurrogate (c : Z) : bool := (0xD800 <=? c) && (c <=? 0xDFFF).

Definition UTF16SurrogatePairToCodePoint (lead trail : Z) : Z :=
  (lead - 0xD800) * 0x400 + (trail - 0xDC00) + 0x10000.

(** StringToCodePoints of ECMAScript: a leading surrogate followed by a
    trailing one is one code point, every other code unit stands alone. *)
Fixpoint StringToCodePoints (s : JsString) : list Z :=
  match s with
  | [] => []
  | c :: s' =>
      match s' with
      | d :: s'' =>
          if isLeadingSurrogate c && isTrailingSurrogate d
          then UTF16SurrogatePairToCodePoint c d :: StringToCodePoints s''
          else c :: StringToCodePoints s'
      | [] => [c]
      end
  end.

Definition UTF16EncodeCodePoint (cp : Z) : JsString :=
  if cp <=? 0xFFFF then [cp]
  else [(cp - 0x10000) / 0x400 + 0xD800; (cp - 0x10000) mod 0x400 + 0xDC00].

Definition CodePointsToString (cps : list Z) : JsString :=
  concat (map UTF16EncodeCodePoint cps).

Definition byteOfZ (z : Z) : byte := ToUint8 (Some z).

Definition utf8EncodeCodePoint (cp : Z) : list byte :=
  if cp <? 0x80 then [byteOfZ cp]
  else if cp <? 0x800 then
    [byteOfZ (Z.lor 0xC0 (Z.shiftr cp 6));
     byteOfZ (Z.lor 0x80 (Z.land cp 0x3F))]
  else if cp <? 0x10000 then
    [byteOfZ (Z.lor 0xE0 (Z.shiftr cp 12));
     byteOfZ (Z.lor 0x80 (Z.land (Z.shiftr cp 6) 0x3F));
     byteOfZ (Z.lor 0x80 (Z.land cp 0x3F))]
  else
    [byteOfZ (Z.lor 0xF0 (Z.shiftr cp 18));
     byteOfZ (Z.lor 0x80 (Z.land (Z.shiftr cp 12) 0x3F));
     byteOfZ (Z.lor 0x80 (Z.land (Z.shiftr cp 6) 0x3F));
     byteOfZ (Z.lor 0x80 (Z.land cp 0x3F))].

(** [new TextEncoder().encode(s)]: UTF-8, a lone surrogate is written as
    U+FFFD. *)
Definition TextEncoder_encode (s : JsString) : list byte :=
  concat (map (fun cp => utf8EncodeCodePoint (if isSurrogate cp then 0xFFFD else cp))
              (StringToCodePoints s)).

(** ** Values, thrown values and calls that leave the repository *)

(** What a [catch] clause can receive: an [Error] with its message, or
    some other value. *)
Inductive JsThrown : Type :=
| JsError (message : JsString)
| JsNonError.

(** [error instanceof Error ? error.message : 'Unknown error'] *)
Definition errorMessage (error : JsThrown) : JsString :=
  match error with
  | JsError message => message
  | JsNonError => lit "Unknown error"
  end.

(** What [openpgp.encrypt] can resolve to: armored text, or the binary
    message when [format: 'binary'] is asked for. *)
Inductive JsValue : Type :=
| JsStr (s : JsString)
| JsBytes (b : list byte).

(** An openpgp [Message] object; the code only passes it on. *)
Record Message : Type := { messagePackets : list byte }.

Inductive Settled (X : Type) : Type :=
| Fulfilled (x : X)
| Rejected (e : JsThrown).
Arguments Fulfilled {X} x.
Arguments Rejected {X} e.

(** The awaited calls, with the arguments the source passes.  [format] is
    the [format] option of openpgp ([None] when the caller gives none). *)
Inductive Ext : Type -> Type :=
| SubtleDigest (algorithm : JsString) (data : list byte) : Ext (list byte)
| OpenpgpReadMessage (binaryMessage : list byte) : Ext Message
| OpenpgpDecrypt (message : Message) (passwords : list JsString)
    (format : option JsString) : Ext JsString
| OpenpgpCreateMessage (text : JsString) : Ext Message
| OpenpgpEncrypt (message : Message) (passwords : list JsString)
    (format : option JsString) : Ext JsValue
| Uint8ArrayOfNumericString (s : JsString) : Ext (list byte).

(** An [async] function body: it returns, throws, logs with
    [console.error], or awaits a call and goes on with how it settled. *)
Inductive Async (A : Type) : Type :=
| Ret (a : A)
| Throw (e : JsThrown)
| ConsoleError (label : JsString) (e : JsThrown) (k : Async A)
| Await (X : Type) (c : Ext X) (k : Settled X -> Async A).
Arguments Ret {A} a.
Arguments Throw {A} e.
Arguments ConsoleError {A} label e k.
Arguments Await {A X} c k.

Fixpoint bind {A B : Type} (m : Async A) (f : A -> Async B) : Async B :=
  match m with
  | Ret a => f a
  | Throw e => Throw e
  | ConsoleError label e k => ConsoleError label e (bind k f)
  | Await c k => Await c (fun r => bind (k r) f)
  end.

(** [try { m } catch (error) { h error }] *)
Fixpoint tryCatch {A : Type} (m : Async A) (h : JsThrown -> Async A) : Async A :=
  match m with
  | Ret a => Ret a
  | Throw e => h e
  | ConsoleError label e k => ConsoleError label e (tryCatch k h)
  | Await c k => Await c (fun r => tryCatch (k r) h)
  end.

(** [await call]: a rejection is thrown at the point of the [await]. *)
Definition await {X : Type} (c : Ext X) : Async X :=
  Await c (fun r => match r with Fulfilled x => Ret x | Rejected e => Throw e end).

Declare Scope async_scope.
Delimit Scope async_scope with async.
Notation "x <- m ;; k" := (bind m (fun x => k))
  (at level 100, m at next level, right associativity) : async_scope.
Local Open Scope async_scope.

(** A world gives every call its outcome; its state carries whatever the
    libraries draw on (the randomness of encryption, for one). *)
Record World : Type := {
  state : Type;
  handle : forall X : Type, Ext X -> state -> Settled X * state
}.

Fixpoint run (W : World) {A : Type} (m : Async A) (st : state W)
  : Settled A * state W :=
  match m with
  | Ret a => (Fulfilled a, st)
  | Throw e => (Rejected e, st)
  | ConsoleError _ _ k => run W k st
  | Await c k => let '(r, st') := handle W _ c st in run W (k r) st'
  end.

(** ** [new Uint8Array(value)] *)

Definition isDecimalDigit (c : Z) : bool := (48 <=? c) && (c <=? 57).

Definition isRadixDigit (R : Z) (c : Z) : bool :=
  match digitValue c with Some d => d <? R | None => false end.

(** Drops the leading characters that satisfy [p] and counts them. *)
Fixpoint skipWhile (p : Z -> bool) (s : JsString) : nat * JsString :=
  match s with
  | c :: s' => if p c then let '(n, r) := skipWhile p s' in (S n, r) else (O, s)
  | [] => (O, [])
  end.

(** ExponentPart, optional, then nothing but white space. *)
Definition exponentAndEnd (s : JsString) : bool :=
  match s with
  | 101 :: r | 69 :: r =>
      let r := match r with 43 :: r' | 45 :: r' => r' | _ => r end in
      let '(n, r) := skipWhile isDecimalDigit r in
      negb (n =? 0)%nat && forallb isWhiteSpace r
  | _ => forallb isWhiteSpace s
  end.

(** StrUnsignedDecimalLiteral followed by white space only. *)
Definition unsignedDecimalAndEnd (s : JsString) : bool :=
  if startsWith s (lit "Infinity") then forallb isWhiteSpace (drop 8 s)
  else
    let '(n1, r) := skipWhile isDecimalDigit s in
    match r with
    | 46 :: r' =>
        let '(n2, r'') := skipWhile isDecimalDigit r' in
        negb (n1 + n2 =? 0)%nat && exponentAndEnd r''
    | _ => negb (n1 =? 0)%nat && exponentAndEnd r
    end.

Definition nonDecimalAndEnd (R : Z) (s : JsString) : bool :=
  let '(n, r) := skipWhile (isRadixDigit R) s in
  negb (n =? 0)%nat && forallb isWhiteSpace r.

(** Whether ToNumber of a string is a number, that is whether the string
    is a StringNumericLiteral (the empty and the blank string are: 0);
    otherwise ToNumber is NaN. *)
Definition isStringNumericLiteral (s : JsString) : bool :=
  match trimStart s with
  | [] => true
  | 48 :: 98 :: r | 48 :: 66 :: r => nonDecimalAndEnd 2 r
  | 48 :: 111 :: r | 48 :: 79 :: r => nonDecimalAndEnd 8 r
  | 48 :: 120 :: r | 48 :: 88 :: r => nonDecimalAndEnd 16 r
  | 43 :: r | 45 :: r => unsignedDecimalAndEnd r
  | t => unsignedDecimalAndEnd t
  end.

(** The constructor applied to what [openpgp.encrypt] resolved to (the
    cast [as ArrayBuffer] is erased).  A typed array is copied.  A string
    is not an object, so its ToNumber is taken as the length: NaN, hence
    length 0, unless the text is a numeric literal, and then the engine
    rounds the number and allocates (or throws a RangeError). *)
Definition newUint8Array (value : JsValue) : Async (list byte) :=
  match value with
  | JsBytes b => Ret b
  | JsStr s =>
      if isStringNumericLiteral s
      then await (Uint8ArrayOfNumericString s)
      else Ret []
  end.

(** ** The pipeline *)

Record TransformationResult : Type := {
  originalText : JsString;
  transformedText : JsString;
  hashedText : option JsString;
  detectedPiiTypes : list JsString;
  transformationCount : Z
}.

Section Pipeline.

(** The Unicode upper-case mapping of a code point (UnicodeData and
    SpecialCasing, language-insensitive), a table of the platform. *)
Variable toUppercase : Z -> list Z.

Definition upperAll (cps : list Z) : list Z := concat (map toUppercase cps).

(** [String.prototype.toUpperCase] *)
Definition toUpperCase (s : JsString) : JsString :=
  CodePointsToString (upperAll (StringToCodePoints s)).

Definition generateSHA256Hash (text : JsString) : Async JsString :=
  let uppercasedText := toUpperCase text in
  let data := TextEncoder_encode uppercasedText in
  hashBuffer <- await (SubtleDigest (lit "SHA-256") data) ;;
  let hashArray := hashBuffer in
  let hashHex := join (map hexByte hashArray) in
  Ret hashHex.

Definition decryptPGP (hexData passphrase : JsString) : Async JsString :=
  let encrypted := hexToUint8Array hexData in
  message <- await (OpenpgpReadMessage encrypted) ;;
  decrypted <- await (OpenpgpDecrypt message [passphrase] (Some (lit "utf8"))) ;;
  Ret decrypted.

Definition safe_pgp_sym_decrypt (encryptedData passphrase : JsString)
  : Async JsString :=
  tryCatch
    (if negb (startsWith encryptedData (lit "\xc"))
     then Throw (JsError (lit "Only hex format starting with \xc is supported"))
     else if falsy passphrase
     then Throw (JsError (lit "Passphrase is required for decryption"))
     else decryptPGP encryptedData passphrase)
    (fun error =>
       ConsoleError (lit "PGP decryption failed:") error
         (Throw (JsError (lit "PGP decryption failed: " ++ errorMessage error)))).

Definition safe_pgp_sym_encrypt (plainText passphrase : JsString)
  : Async JsString :=
  tryCatch
    (if falsy passphrase
     then Throw (JsError (lit "Passphrase is required for encryption"))
     else
       message <- await (OpenpgpCreateMessage plainText) ;;
       encrypted <- await (OpenpgpEncrypt message [passphrase] None) ;;
       encryptedBytes <- newUint8Array encrypted ;;
       Ret (uint8ArrayToHex encryptedBytes))
    (fun error =>
       ConsoleError (lit "PGP encryption failed:") error
         (Throw (JsError (lit "PGP encryption failed: " ++ errorMessage error)))).

(** [!passphrase] for the optional parameter [passphrase?: string]. *)
Definition passphraseMissing (passphrase : option JsString) : bool :=
  match passphrase with
  | Some p => falsy p
  | None => true
  end.

(** The string behind a passphrase that passed the [!passphrase] test. *)
Definition passphraseString (passphrase : option JsString) : JsString :=
  match passphrase with
  | Some p => p
  | None => []
  end.

(** The locals [transformedText], [detectedPiiTypes] and
    [transformationCount], threaded through the stages. *)
Definition Locals : Type := (JsString * list JsString * Z)%type.

(** The [try]/[catch] statement of [transformPiiData].  Nothing is
    assigned in the [try] block before its last possible throw, so the
    [catch] clause starts from the locals as they were. *)
Definition decryptStage (text : JsString) (passphrase : option JsString)
    (locals : Locals) : Async Locals :=
  let '(_, detectedPiiTypes, _) := locals in
  tryCatch
    (if passphraseMissing passphrase
     then Throw (JsError (lit "Passphrase is required for decryption"))
     else
       decrypted <- safe_pgp_sym_decrypt text (passphraseString passphrase) ;;
       Ret (decrypted, detectedPiiTypes ++ [lit "PGP_DECRYPTED"], 1))
    (fun error =>
       Ret (lit "[DECRYPTION_FAILED: " ++ errorMessage error ++ lit "]",
            detectedPiiTypes ++ [lit "DECRYPTION_ERROR"], 1)).

(** The [try]/[catch] statement of [backwardTransformPiiData]. *)
Definition encryptStage (text : JsString) (passphrase : option JsString)
    (locals : Locals) : Async Locals :=
  let '(_, detectedPiiTypes, _) := locals in
  tryCatch
    (if passphraseMissing passphrase
     then Throw (JsError (lit "Passphrase is required for encryption"))
     else
       encrypted <- safe_pgp_sym_encrypt text (passphraseString passphrase) ;;
       Ret (encrypted, detectedPiiTypes ++ [lit "PGP_ENCRYPTED"], 1))
    (fun error =>
       Ret (lit "[ENCRYPTION_FAILED: " ++ errorMessage error ++ lit "]",
            detectedPiiTypes ++ [lit "ENCRYPTION_ERROR"], 1)).

(** The digest stage and the result object, common to both functions. *)
Definition hashStage (text : JsString) (locals : Locals)
  : Async TransformationResult :=
  let '(transformedText, detectedPiiTypes, transformationCount) := locals in
  hashedText <- generateSHA256Hash transformedText ;;
  let detectedPiiTypes := detectedPiiTypes ++ [lit "SHA256_HASHED"] in
  let transformationCount := transformationCount + 1 in
  Ret {| originalText := text;
         transformedText := transformedText;
         hashedText := Some hashedText;
         detectedPiiTypes := detectedPiiTypes;
         transformationCount := transformationCount |}.

(** [shouldDecrypt] is [None] when the caller leaves it out: the default
    is [false]. *)
Definition transformPiiData (text : JsString) (shouldDecrypt : option bool)
    (passphrase : option JsString) : Async TransformationResult :=
  let shouldDecrypt :=
    match shouldDecrypt with Some flag => flag | None => false end in
  if falsy (trim text) then
    Ret {| originalText := text;
           transformedText := text;
           hashedText := None;
           detectedPiiTypes := [];
           transformationCount := 0 |}
  else
    let locals : Locals := (text, [], 0) in
    locals <-
      (if shouldDecrypt then decryptStage text passphrase locals
       else Ret locals) ;;
    hashStage text locals.

Definition backwardTransformPiiData (text : JsString)
    (passphrase : option JsString) : Async TransformationResult :=
  if falsy (trim text) then
    Ret {| originalText := text;
           transformedText := text;
           hashedText := None;
           detectedPiiTypes := [];
           transformationCount := 0 |}
  else
    let locals : Locals := (text, [], 0) in
    locals <- encryptStage text passphrase locals ;;
    hashStage text locals.

(** The two operations as the page calls them:
    [transformPiiData(inputText, true, passphrase)] and
    [backwardTransformPiiData(inputText, passphrase)]. *)
Definition forwardTransform (text : JsString) (passphrase : option JsString)
  : Async TransformationResult :=
  transformPiiData text (Some true) passphrase.

Definition backwardTransform (text : JsString) (passphrase : option JsString)
  : Async TransformationResult :=
  backwardTransformPiiData text passphrase.

End Pipeline.

(** ** Format heuristic *)

Record PiiAnalysis : Type := {
  stats_SPECIFIC_HEX_PGP : Z;
  totalMatches : Z;
  hasAnyPii : bool
}.

Definition analyzePiiData (text : JsString) : PiiAnalysis :=
  let isSpecificHexPgp := startsWith text (lit "\xc") in
  {| stats_SPECIFIC_HEX_PGP := if isSpecificHexPgp then 1 else 0;
     totalMatches := if isSpecificHexPgp then 1 else 0;
     hasAnyPii := isSpecificHexPgp |}.

Definition containsPii (text : JsString) : bool :=
  startsWith text (lit "\xc").

(** ** A reference world

    SHA-256 as FIPS 180-4 defines it stands for [crypto.subtle.digest];
    openpgp is replaced by a small double that keeps the shape of its
    interface: armored text unless [format: 'binary'] is asked for, a
    message that opens only with the passphrase it was made with. *)

Module SHA256.

Definition w32 (x : Z) : Z := x mod 2 ^ 32.
Definition add32 (x y : Z) : Z := w32 (x + y).
Definition rotr (n x : Z) : Z :=
  Z.lor (Z.shiftr x n) (w32 (Z.shiftl x (32 - n))).
Definition not32 (x : Z) : Z := Z.lxor x 0xFFFFFFFF.

Definition Ch (x y z : Z) : Z := Z.lxor (Z.land x y) (Z.land (not32 x) z).
Definition Maj (x y z : Z) : Z :=
  Z.lxor (Z.lxor (Z.land x y) (Z.land x z)) (Z.land y z).
Definition bigSigma0 (x : Z) : Z := Z.lxor (Z.lxor (rotr 2 x) (rotr 13 x)) (rotr 22 x).
Definition bigSigma1 (x : Z) : Z := Z.lxor (Z.lxor (rotr 6 x) (rotr 11 x)) (rotr 25 x).
Definition smallSigma0 (x : Z) : Z := Z.lxor (Z.lxor (rotr 7 x) (rotr 18 x)) (Z.shiftr x 3).
Definition smallSigma1 (x : Z) : Z := Z.lxor (Z.lxor (rotr 17 x) (rotr 19 x)) (Z.shiftr x 10).

(** The first [n] primes, by trial division. *)
Fixpoint primesFrom (fuel n : nat) (candidate : Z) (found : list Z) : list Z :=
  match fuel, n with
  | S fuel', S n' =>
      if forallb (fun q => negb (candidate mod q =? 0)) found
      then primesFrom fuel' n' (candidate + 1) (found ++ [candidate])
      else primesFrom fuel' n (candidate + 1) found
  | _, _ => found
  end.

Definition primes (n : nat) : list Z := primesFrom 400 n 2 [].

(** The integer cube root, one bit at a time from bit [bits - 1] down. *)
Fixpoint cubeRoot (bits : nat) (x r : Z) : Z :=
  match bits with
  | O => r
  | S bits' =>
      let r' := r + 2 ^ Z.of_nat bits' in
      cubeRoot bits' x (if r' * r' * r' <=? x then r' else r)
  end.

(** The constants are the first 32 bits of the fractional parts of the
    cube roots of the first 64 primes, the initial hash value those of the
    square roots of the first 8. *)
Definition K : list Z :=
  Eval vm_compute in map (fun q => w32 (cubeRoot 36 (q * 2 ^ 96) 0)) (primes 64).

Record Regs : Type :=
  mkRegs { ra : Z; rb : Z; rc : Z; rd : Z; re : Z; rf : Z; rg : Z; rh : Z }.

Definition H0 : Regs :=
  Eval vm_compute in
    match map (fun q => w32 (Z.sqrt (q * 2 ^ 64))) (primes 8) with
    | [a; b; c; d; e; f; g; h] => mkRegs a b c d e f g h
    | _ => mkRegs 0 0 0 0 0 0 0 0
    end.

(** Big-endian bytes of a number, [n] of them. *)
Fixpoint bigEndian (n : nat) (x : Z) : list Z :=
  match n with
  | O => []
  | S n' => (Z.shiftr x (8 * Z.of_nat n')) mod 256 :: bigEndian n' x
  end.

Definition pad (msg : list Z) : list Z :=
  let len := Z.of_nat (length msg) in
  let zeros := Z.to_nat ((55 - len) mod 64) in
  msg ++ [0x80] ++ repeat 0 zeros ++ bigEndian 8 (8 * len).

Fixpoint words (fuel : nat) (bytes : list Z) : list Z :=
  match fuel, bytes with
  | S fuel', a :: b :: c :: d :: rest =>
      (((a * 256 + b) * 256 + c) * 256 + d) :: words fuel' rest
  | _, _ => []
  end.

(** The message schedule, latest word first: [w] holds W[t-1], W[t-2], ... *)
Fixpoint schedule (n : nat) (w : list Z) : list Z :=
  match n with
  | O => w
  | S n' =>
      let wt :=
        add32 (add32 (smallSigma1 (nth 1 w 0)) (nth 6 w 0))
              (add32 (smallSigma0 (nth 14 w 0)) (nth 15 w 0)) in
      schedule n' (wt :: w)
  end.

Definition round (r : Regs) (kw : Z * Z) : Regs :=
  let '(k, w) := kw in
  let t1 := add32 (add32 (add32 (rh r) (bigSigma1 (re r))) (Ch (re r) (rf r) (rg r)))
                  (add32 k w) in
  let t2 := add32 (bigSigma0 (ra r)) (Maj (ra r) (rb r) (rc r)) in
  mkRegs (add32 t1 t2) (ra r) (rb r) (rc r) (add32 (rd r) t1) (re r) (rf r) (rg r).

Definition compress (h : Regs) (block : list Z) : Regs :=
  let w := rev (schedule 48 (rev (words 16 block))) in
  let r := fold_left round (combine K w) h in
  mkRegs (add32 (ra h) (ra r)) (add32 (rb h) (rb r)) (add32 (rc h) (rc r))
         (add32 (rd h) (rd r)) (add32 (re h) (re r)) (add32 (rf h) (rf r))
         (add32 (rg h) (rg r)) (add32 (rh h) (rh r)).

Fixpoint blocks (fuel : nat) (h : Regs) (bytes : list Z) : Regs :=
  match fuel, bytes with
  | S fuel', _ :: _ => blocks fuel' (compress h (take 64 bytes)) (drop 64 bytes)
  | _, _ => h
  end.

Definition digestRegs (msg : list Z) : Regs :=
  let padded := pad msg in
  blocks (length padded) H0 padded.

Definition regsBytes (r : Regs) : list byte :=
  map byteOfZ
    (concat (map (bigEndian 4)
       [ra r; rb r; rc r; rd r; re r; rf r; rg r; rh r])).

Definition digest (data : list byte) : list byte :=
  regsBytes (digestRegs (map byteValue data)).

End SHA256.

Module Reference.

(** Upper-casing restricted to the ASCII letters; every other code point
    is mapped to itself. *)
Definition asciiToUppercase (c : Z) : list Z :=
  if (97 <=? c) && (c <=? 122) then [c - 32] else [c].

(** Two bytes per code unit, high byte first, and back. *)
Definition unitsBytes (s : JsString) : list byte :=
  concat (map (fun c => [byteOfZ (c / 256); byteOfZ c]) s).

Fixpoint bytesUnits (b : list byte) : JsString :=
  match b with
  | hi :: lo :: rest => byteValue hi * 256 + byteValue lo :: bytesUnits rest
  | _ => []
  end.

(** The binary message of the double: the tag byte 0xc3 of a
    symmetric-key packet, a salt, the passphrase with its length, the
    text. *)
Definition sealed (salt : nat) (passphrase : JsString) (m : Message) : list byte :=
  let key := unitsBytes passphrase in
  [xc3; byteOfZ (Z.of_nat salt);
   byteOfZ (Z.of_nat (length key) / 256); byteOfZ (Z.of_nat (length key))]
  ++ key ++ messagePackets m.

Definition armor (b : list byte) : JsString :=
  lit "-----BEGIN PGP MESSAGE-----" ++ [10; 10] ++ join (map hexByte b)
  ++ [10] ++ lit "-----END PGP MESSAGE-----" ++ [10].

Definition encrypt (message : Message) (passwords : list JsString)
    (format : option JsString) (salt : nat) : Settled JsValue :=
  match passwords with
  | [passphrase] =>
      let b := sealed salt passphrase message in
      match format with
      | None => Fulfilled (JsStr (armor b))
      | Some f =>
          if bool_decide (f = lit "binary") then Fulfilled (JsBytes b)
          else if bool_decide (f = lit "armored") then Fulfilled (JsStr (armor b))
          else Rejected (JsError (lit "Unsupported format " ++ f))
      end
  | _ => Rejected (JsError (lit "No keys, passwords, or session key provided"))
  end.

Definition readMessage (binaryMessage : list byte) : Settled Message :=
  match binaryMessage with
  | xc3 :: _ :: _ :: _ :: _ => Fulfilled {| messagePackets := binaryMessage |}
  | _ => Rejected (JsError (lit "Error reading message"))
  end.

Definition decrypt (message : Message) (passwords : list JsString) : Settled JsString :=
  match messagePackets message, passwords with
  | xc3 :: _ :: l1 :: l2 :: rest, [passphrase] =>
      let n := Z.to_nat (byteValue l1 * 256 + byteValue l2) in
      if bool_decide (take n rest = unitsBytes passphrase)
      then Fulfilled (bytesUnits (drop n rest))
      else Rejected (JsError (lit "Error decrypting message: Session key decryption failed."))
  | _, _ => Rejected (JsError (lit "Error decrypting message: No symmetrically encrypted session key packet found."))
  end.

(** The engine on a numeric string: plain decimal digits give that many
    zero bytes, anything else is turned down. *)
Definition uint8ArrayOfNumericString (s : JsString) : Settled (list byte) :=
  match readDigits 10 (trimStart s) None with
  | Some n =>
      if forallb isDecimalDigit (trim s) then Fulfilled (repeat x00 (Z.to_nat n))
      else Rejected (JsError (lit "Invalid typed array length: " ++ s))
  | None => Fulfilled []
  end.

(** [defaultFormat] is what the double does when no [format] is given:
    ['armored'] is openpgp's own default. *)
Definition handler (defaultFormat : JsString) (X : Type) (c : Ext X)
    (salt : nat) : Settled X * nat :=
  match c in Ext X return Settled X * nat with
  | SubtleDigest algorithm data =>
      if bool_decide (algorithm = lit "SHA-256")
      then (Fulfilled (SHA256.digest data), salt)
      else (Rejected (JsError (lit "Unrecognized name.")), salt)
  | OpenpgpReadMessage binaryMessage => (readMessage binaryMessage, salt)
  | OpenpgpDecrypt message passwords _ => (decrypt message passwords, salt)
  | OpenpgpCreateMessage text =>
      (Fulfilled {| messagePackets := unitsBytes text |}, salt)
  | OpenpgpEncrypt message passwords format =>
      let format := match format with Some f => f | None => defaultFormat end in
      (encrypt message passwords (Some format) salt, S salt)
  | Uint8ArrayOfNumericString s => (uint8ArrayOfNumericString s, salt)
  end.

Definition world : World :=
  {| state := nat; handle := handler (lit "armored") |}.

(** The library as the code takes it to be: binary when nothing is
    asked for. *)
Definition binaryWorld : World :=
  {| state := nat; handle := handler (lit "binary") |}.

End Reference.

(** ** Notions of the specification *)

(** "Interprets the remaining characters as a sequence of two-hex-digit
    byte pairs": the decoding the specification describes, pair by pair. *)
Fixpoint decodePairs (s : JsString) : list byte :=
  match s with
  | a :: b :: rest => ToUint8 (parseInt16 [a; b]) :: decodePairs rest
  | _ => []
  end.

(** The text left once the optional marker is stripped. *)
Definition stripMarker (hex : JsString) : JsString :=
  if startsWith hex (lit "\x") then drop 2 hex else hex.

(** "Empty or whitespace-only". *)
Definition whitespaceOnly (s : JsString) : Prop :=
  Forall (fun c => isWhiteSpace c = true) s.

Definition isLowerHex (c : Z) : bool :=
  ((48 <=? c) && (c <=? 57)) || ((97 <=? c) && (c <=? 102)).

(** Code units are 16 bits wide. *)
Definition wellFormed (s : JsString) : Prop :=
  Forall (fun c => 0 <= c <= 0xFFFF) s.

Definition validCodePoint (c : Z) : Prop := 0 <= c <= 0x10FFFF.

(** No leading surrogate stands right before a trailing one: the code
    points of a string never do, a pair having been read as one. *)
Fixpoint noSplitPair (cps : list Z) : Prop :=
  match cps with
  | x :: rest =>
      match rest with
      | y :: _ => isLeadingSurrogate x && isTrailingSurrogate y = false
      | [] => True
      end /\ noSplitPair rest
  | [] => True
  end.

(** What is used of the Unicode upper-case mapping: a mapping is never
    empty, consists of code points that are their own upper case, leaves
    surrogates alone and produces none, and takes a-z to A-Z. *)
Record UpperCaseTable (toUppercase : Z -> list Z) : Prop := {
  upper_nonempty : forall c, 0 <= c <= 0x10FFFF -> toUppercase c <> [];
  upper_range : forall c d, 0 <= c <= 0x10FFFF -> In d (toUppercase c) ->
    0 <= d <= 0x10FFFF;
  upper_fixed : forall c d, 0 <= c <= 0x10FFFF -> In d (toUppercase c) ->
    toUppercase d = [d];
  upper_surrogate : forall c, isSurrogate c = true -> toUppercase c = [c];
  upper_no_surrogate : forall c d, 0 <= c <= 0x10FFFF -> isSurrogate c = false ->
    In d (toUppercase c) -> isSurrogate d = false;
  upper_ascii : forall c, 97 <= c <= 122 -> toUppercase c = [c - 32]
}.

(** [crypto.subtle.digest('SHA-256', data)] always resolves. *)
Definition digestFulfils (W : World) : Prop :=
  forall data st, exists h st',
    handle W _ (SubtleDigest (lit "SHA-256") data) st = (Fulfilled h, st').

(** [crypto.subtle.digest('SHA-256', data)] is a function of [data] with
    a 256-bit value, and leaves the world as it is. *)
Definition digestIs (W : World) (sha : list byte -> list byte) : Prop :=
  (forall data, length (sha data) = 32%nat) /\
  forall data st,
    handle W _ (SubtleDigest (lit "SHA-256") data) st = (Fulfilled (sha data), st).

(** The interface of [openpgp.encrypt]: called without [format], what it
    resolves to is the armored text of the message. *)
Definition encryptArmors (W : World) : Prop :=
  forall message passwords st value st',
    handle W _ (OpenpgpEncrypt message passwords None) st = (Fulfilled value, st') ->
    exists body, value = JsStr (lit "-----BEGIN PGP MESSAGE-----" ++ body).

(** What the code takes [openpgp.encrypt] to resolve to: the binary
    message, which for a passphrase starts with the packet tag 0xc3. *)
Definition encryptGivesBinary (W : World) : Prop :=
  forall message passwords st value st',
    handle W _ (OpenpgpEncrypt message passwords None) st = (Fulfilled value, st') ->
    exists b, value = JsBytes (xc3 :: b).

(** The round trip of the library itself, for one text and passphrase:
    the text made into a message and encrypted under the passphrase is read
    back and decrypted to that text with the same passphrase, whenever that
    is done. *)
Definition libraryRoundTrip (W : World) (text k : JsString) : Prop :=
  (forall st, exists m st',
     handle W _ (OpenpgpCreateMessage text) st = (Fulfilled m, st')) /\
  (forall m st, exists value st',
     handle W _ (OpenpgpEncrypt m [k] None) st = (Fulfilled value, st')) /\
  forall st m st1 b st2,
    handle W _ (OpenpgpCreateMessage text) st = (Fulfilled m, st1) ->
    handle W _ (OpenpgpEncrypt m [k] None) st1 = (Fulfilled (JsBytes b), st2) ->
    forall st3, exists m' st4 st5,
      handle W _ (OpenpgpReadMessage b) st3 = (Fulfilled m', st4) /\
      handle W _ (OpenpgpDecrypt m' [k] (Some (lit "utf8"))) st4
      = (Fulfilled text, st5).

(** The text every rejected envelope is turned into by the forward
    operation. *)
Definition unsupportedFormatMarker : JsString :=
  lit "[DECRYPTION_FAILED: PGP decryption failed: Only hex format starting with \xc is supported]".

(** What the decrypt operation is when it turns a text down for its
    format: it logs and throws, and awaits nothing. *)
Definition unsupportedFormat : Async JsString :=
  ConsoleError (lit "PGP decryption failed:")
    (JsError (lit "Only hex format starting with \xc is supported"))
    (Throw (JsError (lit "PGP decryption failed: Only hex format starting with \xc is supported"))).

(** The shape of a result, as section 3 of the specification states it,
    for the two labels a crypto stage can leave. *)
Definition resultShape (text : JsString) (okLabel errorLabel : JsString)
    (r : TransformationResult) : Prop :=
  originalText r = text /\
  (transformationCount r = 0 <-> whitespaceOnly text) /\
  (whitespaceOnly text ->
     transformedText r = originalText r /\ detectedPiiTypes r = [] /\
     hashedText r = None) /\
  (~ whitespaceOnly text ->
     transformationCount r = 2 /\
     exists outcome, (outcome = okLabel \/ outcome = errorLabel) /\
       detectedPiiTypes r = [outcome; lit "SHA256_HASHED"]).


(** The only rejection an operation lets through: that of the digest
    call itself, which the specification leaves unhandled. *)
Definition onlyDigestRejects (W : World) (op : Async TransformationResult)
    (st : state W) : Prop :=
  forall e st',
    run W op st = (Rejected e, st') ->
    exists data st1,
      handle W _ (SubtleDigest (lit "SHA-256") data) st1 = (Rejected e, st').

(** ** The catalog and the two components *)

Record PatternInfo : Type := {
  name : JsString;
  description : JsString;
  enabled : bool
}.

Definition getAvailablePatterns : list PatternInfo :=
  [ {| name := lit "SPECIFIC_HEX_PGP";
       description := lit "Specific hex PGP format (\xc30d04070302...)";
       enabled := true |} ].

(** [Object.entries(analysis.stats)]: the object has the one key. *)
Definition statsEntries (analysis : PiiAnalysis) : list (JsString * Z) :=
  [(lit "SPECIFIC_HEX_PGP", stats_SPECIFIC_HEX_PGP analysis)].

(** What the [PiiAnalysis] component renders: nothing, the blue "No PII
    detected" box, or the yellow box with its list of types and counts. *)
Inductive PiiAnalysisView : Type :=
| NoPanel
| NoPiiDetected
| FoundPii (detectedTypes : list (JsString * Z)).

Definition PiiAnalysisComponent (text : JsString) : PiiAnalysisView :=
  if falsy (trim text) then NoPanel
  else
    let analysis := analyzePiiData text in
    if negb (hasAnyPii analysis) then NoPiiDetected
    else
      let detectedTypes :=
        filter (fun entry => 0 < snd entry) (statsEntries analysis) in
      FoundPii detectedTypes.

(** The green line of the [TransformationResult] component: the count,
    the plural ending of "item" and the labels. *)
Record StatsBanner : Type := {
  shownCount : Z;
  pluralEnding : JsString;
  shownTypes : list JsString
}.

(** What the [TransformationResult] component renders: the placeholder,
    or the panel with the banner (when the count is positive), the
    transformed text, and the hash box (when there is a hash). *)
Inductive ResultView : Type :=
| Placeholder
| ResultPanel (banner : option StatsBanner) (text : JsString)
    (hash : option JsString).

Definition TransformationResultComponent (result : option TransformationResult)
  : ResultView :=
  match result with
  | None => Placeholder
  | Some result =>
      if falsy (transformedText result) then Placeholder
      else
        ResultPanel
          (if 0 <? transformationCount result
           then Some {| shownCount := transformationCount result;
                        pluralEnding :=
                          if negb (transformationCount result =? 1)
                          then lit "s" else [];
                        shownTypes := detectedPiiTypes result |}
           else None)
          (transformedText result)
          (match hashedText result with
           | Some h => if falsy h then None else Some h
           | None => None
           end)
  end.

(** ** The page *)

(** The state of the page, one field for each [useState]. *)
Record PageState : Type := {
  inputText : JsString;
  transformationResult : option TransformationResult;
  isProcessing : bool;
  passphrase : JsString;
  isBackwardMode : bool
}.

Definition setInputText (v : JsString) (s : PageState) : PageState :=
  {| inputText := v;
     transformationResult := transformationResult s;
     isProcessing := isProcessing s;
     passphrase := passphrase s;
     isBackwardMode := isBackwardMode s |}.

Definition setTransformationResult (v : option TransformationResult)
    (s : PageState) : PageState :=
  {| inputText := inputText s;
     transformationResult := v;
     isProcessing := isProcessing s;
     passphrase := passphrase s;
     isBackwardMode := isBackwardMode s |}.

Definition setIsProcessing (v : bool) (s : PageState) : PageState :=
  {| inputText := inputText s;
     transformationResult := transformationResult s;
     isProcessing := v;
     passphrase := passphrase s;
     isBackwardMode := isBackwardMode s |}.

(** What [handleTransformPiiData] has still to do after its first
    [await]: the delay it sits out, the operation it then awaits, and the
    updates it makes once that has resolved.  There is no [catch] and no
    [finally]: when the operation rejects nothing more is done. *)
Record Pending : Type := {
  delay : Z;
  operation : Async TransformationResult;
  onResult : TransformationResult -> PageState -> PageState
}.

(** [handleTransformPiiData] in a render with state [s], whose fields its
    closure holds: the update it makes at once, and what is pending unless
    it returned. *)
Definition handleTransformPiiData (toUppercase : Z -> list Z) (s : PageState)
  : (PageState -> PageState) * option Pending :=
  if falsy (trim (inputText s)) then (fun current => current, None)
  else
    (setIsProcessing true,
     Some {| delay := 1000;
             operation :=
               if isBackwardMode s
               then backwardTransformPiiData toUppercase (inputText s)
                      (Some (passphrase s))
               else transformPiiData toUppercase (inputText s) (Some true)
                      (Some (passphrase s));
             onResult := fun result current =>
               setIsProcessing false
                 (setTransformationResult (Some result) current) |}).

Definition clearAll (s : PageState) : PageState :=
  setTransformationResult None (setInputText [] s).

(** [handleCopyTransformed]: the text written to the clipboard, if any. *)
Definition handleCopyTransformed (s : PageState) : option JsString :=
  match transformationResult s with
  | Some result =>
      if falsy (transformedText result) then None
      else Some (transformedText result)
  | None => None
  end.

(** The [disabled] attribute of the transform button. *)
Definition buttonDisabled (s : PageState) : bool :=
  falsy (trim (inputText s)) || falsy (trim (passphrase s)) || isProcessing s.

(** The page once a call of the handler has settled in a world, nothing
    else having happened in between. *)
Definition settled (W : World) (toUppercase : Z -> list Z) (s : PageState)
    (st : state W) : PageState * state W :=
  let '(atOnce, pending) := handleTransformPiiData toUppercase s in
  match pending with
  | None => (atOnce s, st)
  | Some p =>
      match run W (operation p) st with
      | (Fulfilled result, st') => (onResult p result (atOnce s), st')
      | (Rejected _, st') => (atOnce s, st')
      end
  end.

(** A browser without [crypto.subtle], as on a page that was not served
    over https: the digest call throws; the rest is the reference world. *)
Definition insecureWorld : World :=
  {| state := nat;
     handle := fun X (c : Ext X) (salt : nat) =>
       if match c with SubtleDigest _ _ => true | _ => false end
       then (Rejected (JsError (lit "Cannot read properties of undefined (reading 'digest')")), salt)
       else Reference.handler (lit "armored") X c salt |}.

(** ** Further notions *)

(** A hex digit in upper case. *)
Definition upperHexDigit (c : Z) : Z :=
  if (97 <=? c) && (c <=? 102) then c - 32 else c.

(** A property of every call a program can make, whatever the calls
    before it settled to. *)
Fixpoint everyCall {A : Type} (P : forall X : Type, Ext X -> Prop)
    (m : Async A) : Prop :=
  match m with
  | Ret _ => True
  | Throw _ => True
  | ConsoleError _ _ k => everyCall P k
  | Await c k => P _ c /\ forall r, everyCall P (k r)
  end.

(** The calls of the decrypting side, with what they may carry: the
    bytes of the text, the one passphrase with [format: "utf8"], and
    SHA-256. *)
Definition decryptSideCall (text passphrase : JsString) (X : Type) (c : Ext X)
  : Prop :=
  match c with
  | OpenpgpReadMessage binaryMessage => binaryMessage = hexToUint8Array text
  | OpenpgpDecrypt _ passwords format =>
      passwords = [passphrase] /\ format = Some (lit "utf8")
  | SubtleDigest algorithm _ => algorithm = lit "SHA-256"
  | _ => False
  end.

(** The calls of the encrypting side: the text as it is, the one
    passphrase with no [format], the length of a numeric string, and
    SHA-256. *)
Definition encryptSideCall (text passphrase : JsString) (X : Type) (c : Ext X)
  : Prop :=
  match c with
  | OpenpgpCreateMessage plainText => plainText = text
  | OpenpgpEncrypt _ passwords format =>
      passwords = [passphrase] /\ format = None
  | Uint8ArrayOfNumericString _ => True
  | SubtleDigest algorithm _ => algorithm = lit "SHA-256"
  | _ => False
  end.

Definition digestCall (X : Type) (c : Ext X) : Prop :=
  match c with
  | SubtleDigest algorithm _ => algorithm = lit "SHA-256"
  | _ => False
  end.

(** The digest of a text as the pipeline computes it from a digest
    function: upper case, UTF-8, digest, two hex digits a byte. *)
Definition hashOf (toUppercase : Z -> list Z) (sha : list byte -> list byte)
    (text : JsString) : JsString :=
  join (map hexByte (sha (TextEncoder_encode (toUpperCase toUppercase text)))).

(** ** The hex codec *)

(** Induction two characters at a time. *)
Lemma list_ind2 (P : list Z -> Prop) :
  P [] -> (forall a, P [a]) ->
  (forall a b s, P s -> P (b :: s) -> P (a :: b :: s)) ->
  forall s, P s.
Proof.
  intros Hnil Hone Hstep.
  assert (H : forall s, P s /\ forall a, P (a :: s)).
  { induction s as [|b s [IH1 IH2]]; split; auto. }
  intros s. apply H.
Qed.

Lemma hexLoop_S (fuel : nat) (hex : JsString) (i : nat) (bytes : list byte) :
  hexLoop (S fuel) hex i bytes =
  if (i <? length hex)%nat
  then hexLoop fuel hex (i + 2)
         (<[(i / 2)%nat := ToUint8 (parseInt16 (substr hex i 2))]> bytes)
  else bytes.
Proof. reflexivity. Qed.

Lemma hexLoop_decodePairs (hex : JsString) :
  forall (fuel i k : nat) (pre suf : list byte),
    i = (2 * k)%nat ->
    length pre = k ->
    length suf = (length (drop i hex) / 2)%nat ->
    (length (drop i hex) <= fuel)%nat ->
    hexLoop fuel hex i (pre ++ suf) = pre ++ decodePairs (drop i hex).
Proof.
  induction fuel as [|fuel IH]; intros i k pre suf Hi Hpre Hsuf Hfuel.
  - destruct (drop i hex) as [|a r] eqn:E; [|simpl in Hfuel; lia].
    simpl in Hsuf. destruct suf; [|discriminate]. reflexivity.
  - pose proof (length_drop hex i) as Hlen.
    assert (Hdiv : (i / 2)%nat = k).
    { subst i. rewrite Nat.mul_comm. apply Nat.div_mul. lia. }
    rewrite hexLoop_S, Hdiv.
    destruct (drop i hex) as [|a [|b r]] eqn:E.
    + simpl in Hlen, Hsuf. destruct suf; [|discriminate].
      destruct (Nat.ltb_spec i (length hex)); [lia|reflexivity].
    + simpl in Hlen, Hsuf. destruct suf; [|discriminate].
      destruct (Nat.ltb_spec i (length hex)); [|lia].
      rewrite list_insert_ge by (rewrite length_app; simpl; lia).
      destruct fuel as [|fuel']; [reflexivity|].
      rewrite hexLoop_S.
      destruct (Nat.ltb_spec (i + 2) (length hex)); [lia|reflexivity].
    + simpl in Hlen.
      destruct (Nat.ltb_spec i (length hex)); [|lia].
      change (length (a :: b :: r)) with (S (S (length r))) in Hsuf, Hfuel.
      replace (S (S (length r)) / 2)%nat with (S (length r / 2)) in Hsuf.
      2:{ replace (S (S (length r))) with (1 * 2 + length r)%nat by lia.
          rewrite Nat.div_add_l by lia. lia. }
      destruct suf as [|x suf]; [discriminate|].
      assert (Hdrop : drop (i + 2) hex = r).
      { rewrite <- drop_drop, E. reflexivity. }
      unfold substr. rewrite E.
      change (take 2 (a :: b :: r)) with [a; b].
      replace (<[k:=ToUint8 (parseInt16 [a; b])]> (pre ++ x :: suf))
        with ((pre ++ [ToUint8 (parseInt16 [a; b])]) ++ suf).
      2:{ rewrite insert_app_r_alt by lia. rewrite Hpre, Nat.sub_diag.
          rewrite <- app_assoc. reflexivity. }
      rewrite (IH (i + 2)%nat (S k)).
      * rewrite Hdrop, <- app_assoc. reflexivity.
      * lia.
      * rewrite length_app. simpl. lia.
      * rewrite Hdrop. change (length (x :: suf)) with (S (length suf)) in Hsuf. lia.
      * rewrite Hdrop. lia.
Qed.

(** The decoder computes the pairwise decoding of the stripped text, for
    texts of even and of odd length alike. *)
Lemma hexToUint8Array_decodePairs (hex : JsString) :
  hexToUint8Array hex = decodePairs (stripMarker hex).
Proof.
  unfold hexToUint8Array, stripMarker, slice.
  set (s := if startsWith hex (lit "\x") then drop 2 hex else hex).
  apply (hexLoop_decodePairs s (length s) 0 0 [] (repeat x00 (length s / 2))).
  - reflexivity.
  - reflexivity.
  - rewrite repeat_length. reflexivity.
  - reflexivity.
Qed.

Lemma hexByte_decodes (x : byte) :
  length (hexByte x) = 2%nat /\ decodePairs (hexByte x) = [x].
Proof. destruct x; vm_compute; split; reflexivity. Qed.

Lemma decodePairs_hex (b : list byte) : decodePairs (join (map hexByte b)) = b.
Proof.
  induction b as [|x b IH]; [reflexivity|].
  destruct (hexByte_decodes x) as [Hlen Hdec].
  unfold join in *. cbn [map concat].
  destruct (hexByte x) as [|h [|l [|]]]; try discriminate.
  cbn [app decodePairs] in *. injection Hdec as ->. rewrite IH. reflexivity.
Qed.

Lemma decode_encode (b : list byte) : hexToUint8Array (uint8ArrayToHex b) = b.
Proof.
  rewrite hexToUint8Array_decodePairs.
  change (stripMarker (uint8ArrayToHex b)) with (join (map hexByte b)).
  apply decodePairs_hex.
Qed.

(** C5: decoding what the encoder produced gives the bytes back, and what
    the encoder produces starts with the two-character marker. *)
Theorem hex_codec_roundtrip (b : list byte) :
  hexToUint8Array (uint8ArrayToHex b) = b /\
  startsWith (uint8ArrayToHex b) (lit "\x") = true.
Proof.
  split.
  - rewrite hexToUint8Array_decodePairs.
    change (stripMarker (uint8ArrayToHex b)) with (join (map hexByte b)).
    induction b as [|x b IH]; [reflexivity|].
    destruct (hexByte_decodes x) as [Hlen Hdec].
    unfold join in *. cbn [map concat].
    destruct (hexByte x) as [|h [|l [|]]]; try discriminate.
    cbn [app decodePairs] in *. injection Hdec as ->. rewrite IH. reflexivity.
  - unfold uint8ArrayToHex. reflexivity.
Qed.

Lemma decodePairs_length (s : JsString) :
  length (decodePairs s) = (length s / 2)%nat.
Proof.
  induction s as [| a | a b s IH _] using list_ind2; [reflexivity..|].
  cbn [decodePairs length]. rewrite IH.
  replace (S (S (length s))) with (1 * 2 + length s)%nat by lia.
  rewrite Nat.div_add_l by lia. lia.
Qed.

Lemma decodePairs_odd (s : JsString) :
  Nat.odd (length s) = true ->
  decodePairs s = decodePairs (take (length s - 1) s).
Proof.
  induction s as [| a | a b s IH _] using list_ind2; intros Hodd.
  - discriminate.
  - reflexivity.
  - change (Nat.odd (length s) = true) in Hodd.
    destruct s as [|c s]; [discriminate|].
    specialize (IH Hodd).
    replace (length (a :: b :: c :: s) - 1)%nat with (S (S (length (c :: s) - 1)))
      by (cbn [length]; lia).
    cbn [take decodePairs]. rewrite IH at 1. reflexivity.
Qed.

(** C6: when the text left after the optional marker has odd length, the
    decoder does not fail: it returns the bytes of the even-length prefix
    and the last character is dropped. *)
Theorem hex_decode_odd_truncates (hex : JsString) :
  Nat.odd (length (stripMarker hex)) = true ->
  hexToUint8Array hex
    = decodePairs (take (length (stripMarker hex) - 1) (stripMarker hex)) /\
  length (hexToUint8Array hex) = ((length (stripMarker hex) - 1) / 2)%nat.
Proof.
  intros Hodd. rewrite hexToUint8Array_decodePairs. split.
  - apply decodePairs_odd, Hodd.
  - rewrite decodePairs_length.
    destruct (length (stripMarker hex)) as [|n]; [discriminate|].
    rewrite Nat.odd_succ in Hodd. apply Nat.even_spec in Hodd as [m ->].
    replace (S (2 * m) - 1)%nat with (m * 2)%nat by lia.
    rewrite Nat.div_mul by lia.
    replace (S (2 * m)) with (1 + m * 2)%nat by lia.
    rewrite Nat.div_add by lia. reflexivity.
Qed.

Lemma hex_decode_odd_truncates_witness :
  Nat.odd (length (stripMarker (lit "\xc30d0"))) = true /\
  hexToUint8Array (lit "\xc30d0") = [xc3; x0d].
Proof.
  split; [reflexivity|].
  rewrite (proj1 (hex_decode_odd_truncates (lit "\xc30d0") eq_refl)).
  reflexivity.
Defined.

(** ** Strings *)

Lemma startsWith_spec (p s : JsString) :
  startsWith s p = true <-> exists rest, s = p ++ rest.
Proof.
  revert s. induction p as [|x p IH]; intros s.
  - split; [eexists; reflexivity | reflexivity].
  - destruct s as [|c s]; cbn [startsWith].
    + split; [discriminate | intros [rest H]; discriminate].
    + rewrite andb_true_iff, Z.eqb_eq, IH. split.
      * intros [-> [rest ->]]. exists rest. reflexivity.
      * intros [rest H]. injection H as -> ->. split; [reflexivity | eauto].
Qed.

Lemma trimStart_nil (s : JsString) : trimStart s = [] <-> whitespaceOnly s.
Proof.
  unfold whitespaceOnly. induction s as [|c s IH]; cbn [trimStart].
  - split; [constructor | reflexivity].
  - destruct (isWhiteSpace c) eqn:E.
    + rewrite IH. split; [intros H; constructor; assumption | intros H; inversion H; assumption].
    + split; [discriminate | intros H; inversion H; congruence].
Qed.

Lemma trimStart_head (s r : JsString) (c : Z) :
  trimStart s = c :: r -> isWhiteSpace c = false.
Proof.
  induction s as [|x s IH]; cbn [trimStart]; [discriminate|].
  destruct (isWhiteSpace x) eqn:E; [exact IH|].
  intros H. injection H as -> _. exact E.
Qed.

Lemma falsy_nil (s : JsString) : falsy s = true <-> s = [].
Proof. destruct s; split; (reflexivity || discriminate). Qed.

(** [!text.trim()] holds exactly of the empty and the whitespace-only
    texts. *)
Lemma falsy_trim (s : JsString) : falsy (trim s) = true <-> whitespaceOnly s.
Proof.
  rewrite falsy_nil. unfold trim, trimEnd.
  split.
  - intros H. apply (f_equal (@rev Z)) in H. rewrite rev_involutive in H.
    cbn [rev] in H. apply trimStart_nil in H.
    unfold whitespaceOnly in H. apply Forall_rev in H.
    rewrite rev_involutive in H.
    destruct (trimStart s) as [|c r] eqn:E; [apply trimStart_nil, E|].
    apply trimStart_head in E. inversion H; congruence.
  - intros H. apply trimStart_nil in H. rewrite H. reflexivity.
Qed.

Lemma trim_not_blank (s : JsString) :
  ~ whitespaceOnly s -> falsy (trim s) = false.
Proof.
  intros H. destruct (falsy (trim s)) eqn:E; [|reflexivity].
  apply falsy_trim in E. contradiction.
Qed.

Lemma not_blank_head (c : Z) (s : JsString) :
  isWhiteSpace c = false -> ~ whitespaceOnly (c :: s).
Proof. intros Hc H. inversion H; congruence. Qed.

(** ** Running a program in a world *)

Lemma run_bind (W : World) {A B : Type} (m : Async A) (f : A -> Async B) :
  forall st,
    run W (bind m f) st =
    match run W m st with
    | (Fulfilled a, st') => run W (f a) st'
    | (Rejected e, st') => (Rejected e, st')
    end.
Proof.
  induction m as [a | e | label e k IH | X c k IH]; intros st; cbn [bind run].
  - reflexivity.
  - reflexivity.
  - apply IH.
  - destruct (handle W X c st) as [r st']. apply IH.
Qed.

Lemma run_tryCatch (W : World) {A : Type} (m : Async A) (h : JsThrown -> Async A) :
  forall st,
    run W (tryCatch m h) st =
    match run W m st with
    | (Fulfilled a, st') => (Fulfilled a, st')
    | (Rejected e, st') => run W (h e) st'
    end.
Proof.
  induction m as [a | e | label e k IH | X c k IH]; intros st; cbn [tryCatch run].
  - reflexivity.
  - reflexivity.
  - apply IH.
  - destruct (handle W X c st) as [r st']. apply IH.
Qed.

Lemma run_await (W : World) {X : Type} (c : Ext X) (st : state W) :
  run W (await c) st = handle W X c st.
Proof.
  unfold await. cbn [run]. destruct (handle W X c st) as [[x|e] st']; reflexivity.
Qed.

(** ** The format heuristic and the gate of the decrypt operation *)

(** C9: the heuristic holds exactly of the texts that start with the
    two-character marker immediately followed by the character c. *)
Theorem containsPii_iff (s : JsString) :
  (containsPii s = true <-> exists rest, s = [92; 120; 99] ++ rest) /\
  hasAnyPii (analyzePiiData s) = containsPii s.
Proof.
  split; [|reflexivity].
  unfold containsPii. apply (startsWith_spec (lit "\xc")).
Qed.

Lemma safe_decrypt_gate (text passphrase : JsString) :
  startsWith text (lit "\xc") = false ->
  safe_pgp_sym_decrypt text passphrase = unsupportedFormat.
Proof.
  intros H. unfold safe_pgp_sym_decrypt. rewrite H. reflexivity.
Qed.

(** The guard as it is written: a text that does not start with the
    marker followed by the character c is turned down for its format,
    whatever the passphrase, and nothing is handed to the decryption
    library. *)
Theorem decrypt_rejects_other_prefix (text passphrase : JsString) :
  startsWith text (lit "\xc") = false ->
  safe_pgp_sym_decrypt text passphrase = unsupportedFormat.
Proof.
  intros Hprefix. unfold safe_pgp_sym_decrypt.
  rewrite Hprefix. cbn [negb tryCatch].
  unfold unsupportedFormat. reflexivity.
Qed.

Lemma decrypt_rejects_other_prefix_witness :
  startsWith (lit "not-an-envelope") (lit "\xc") = false /\
  safe_pgp_sym_decrypt (lit "not-an-envelope") (lit "secret") = unsupportedFormat.
Proof.
  split; [reflexivity|].
  apply (decrypt_rejects_other_prefix (lit "not-an-envelope") (lit "secret")).
  reflexivity.
Defined.

(** A text that starts with the marker and the character c goes to the
    library once a passphrase is there, whatever its second digit. *)
Lemma decrypt_proceeds (text passphrase : JsString) :
  startsWith text (lit "\xc") = true -> falsy passphrase = false ->
  exists k,
    safe_pgp_sym_decrypt text passphrase
    = Await (OpenpgpReadMessage (hexToUint8Array text)) k.
Proof.
  intros H Hp. unfold safe_pgp_sym_decrypt. rewrite H, Hp.
  eexists. reflexivity.
Qed.

(** Past the guard the adapter is never the unsupported-format failure:
    without a passphrase it is the failure for the passphrase, with one it
    is the call of the library. *)
Lemma safe_decrypt_past_gate (text passphrase : JsString) :
  startsWith text (lit "\xc") = true ->
  safe_pgp_sym_decrypt text passphrase <> unsupportedFormat.
Proof.
  intros E H. unfold safe_pgp_sym_decrypt in H. rewrite E in H.
  cbn [negb] in H. destruct (falsy passphrase).
  - apply (f_equal (fun m : Async JsString =>
                      match m with
                      | ConsoleError _ (JsError msg) _ => length msg
                      | _ => O
                      end)) in H.
    vm_compute in H. discriminate.
  - discriminate.
Qed.

(** C2 fails on the code.  The comment above the guard says that only the
    format starting with [\xc30d04070302] is accepted, and the catalog
    describes the pattern the same way, but the guard tests the marker and
    the one character c: a text that starts with [\xc] and not with [\xc3]
    is never turned down for its format, and with a passphrase its decoded
    bytes are handed to [openpgp.readMessage]. *)
Theorem decrypt_gate_too_wide (text passphrase : JsString) :
  startsWith text (lit "\xc") = true ->
  startsWith text (lit "\xc3") = false ->
  safe_pgp_sym_decrypt text passphrase <> unsupportedFormat /\
  (passphrase <> [] ->
   exists k,
     safe_pgp_sym_decrypt text passphrase
     = Await (OpenpgpReadMessage (hexToUint8Array text)) k).
Proof.
  intros Hgate _. split.
  - apply safe_decrypt_past_gate, Hgate.
  - intros Hp. apply decrypt_proceeds; [exact Hgate|].
    destruct passphrase; [contradiction | reflexivity].
Qed.

Lemma decrypt_gate_too_wide_witness :
  safe_pgp_sym_decrypt (lit "\xc0") (lit "secret") <> unsupportedFormat /\
  exists k,
    safe_pgp_sym_decrypt (lit "\xc0") (lit "secret")
    = Await (OpenpgpReadMessage [xc0]) k.
Proof.
  destruct (decrypt_gate_too_wide (lit "\xc0") (lit "secret") eq_refl eq_refl)
    as [Hnot Hcall].
  split; [exact Hnot|]. apply Hcall. discriminate.
Defined.

(** At [\xc0]: the text does not start with the marker followed by the
    byte 0xc3, and yet the byte 0xc0 is handed to [openpgp.readMessage]; in
    the reference world the error that comes back is the library's, not
    the unsupported-format one. *)
Lemma decrypt_gate_counterexample :
  startsWith (lit "\xc0") (lit "\xc3") = false /\
  hexToUint8Array (lit "\xc0") = [xc0] /\
  safe_pgp_sym_decrypt (lit "\xc0") (lit "secret") <> unsupportedFormat /\
  (exists k, safe_pgp_sym_decrypt (lit "\xc0") (lit "secret")
             = Await (OpenpgpReadMessage [xc0]) k) /\
  fst (run Reference.world (safe_pgp_sym_decrypt (lit "\xc0") (lit "secret")) O)
  = Rejected (JsError (lit "PGP decryption failed: Error reading message")).
Proof.
  split; [reflexivity|]. split; [reflexivity|]. split; [discriminate|].
  split; [eexists; reflexivity | reflexivity].
Qed.

(** ** The orchestrators *)

Section Orchestrators.

Variable W : World.
Variable toUppercase : Z -> list Z.

Lemma run_decryptStage (text t0 : JsString) (passphrase : option JsString)
    (types : list JsString) (n : Z) (st : state W) :
  run W (decryptStage text passphrase (t0, types, n)) st =
  if passphraseMissing passphrase
  then (Fulfilled (lit "[DECRYPTION_FAILED: "
                     ++ lit "Passphrase is required for decryption" ++ lit "]",
                   types ++ [lit "DECRYPTION_ERROR"], 1), st)
  else
    match run W (safe_pgp_sym_decrypt text (passphraseString passphrase)) st with
    | (Fulfilled decrypted, st') =>
        (Fulfilled (decrypted, types ++ [lit "PGP_DECRYPTED"], 1), st')
    | (Rejected e, st') =>
        (Fulfilled (lit "[DECRYPTION_FAILED: " ++ errorMessage e ++ lit "]",
                    types ++ [lit "DECRYPTION_ERROR"], 1), st')
    end.
Proof.
  unfold decryptStage. rewrite run_tryCatch.
  destruct (passphraseMissing passphrase); [reflexivity|].
  rewrite run_bind.
  destruct (run W (safe_pgp_sym_decrypt text (passphraseString passphrase)) st)
    as [[d|e] st']; reflexivity.
Qed.

Lemma run_encryptStage (text t0 : JsString) (passphrase : option JsString)
    (types : list JsString) (n : Z) (st : state W) :
  run W (encryptStage text passphrase (t0, types, n)) st =
  if passphraseMissing passphrase
  then (Fulfilled (lit "[ENCRYPTION_FAILED: "
                     ++ lit "Passphrase is required for encryption" ++ lit "]",
                   types ++ [lit "ENCRYPTION_ERROR"], 1), st)
  else
    match run W (safe_pgp_sym_encrypt text (passphraseString passphrase)) st with
    | (Fulfilled encrypted, st') =>
        (Fulfilled (encrypted, types ++ [lit "PGP_ENCRYPTED"], 1), st')
    | (Rejected e, st') =>
        (Fulfilled (lit "[ENCRYPTION_FAILED: " ++ errorMessage e ++ lit "]",
                    types ++ [lit "ENCRYPTION_ERROR"], 1), st')
    end.
Proof.
  unfold encryptStage. rewrite run_tryCatch.
  destruct (passphraseMissing passphrase); [reflexivity|].
  rewrite run_bind.
  destruct (run W (safe_pgp_sym_encrypt text (passphraseString passphrase)) st)
    as [[d|e] st']; reflexivity.
Qed.

(** Whatever the libraries do, a crypto stage comes back with locals:
    one label, a count of 1. *)
Lemma decryptStage_fulfils (text : JsString) (passphrase : option JsString)
    (st : state W) :
  exists t outcome st',
    run W (decryptStage text passphrase (text, [], 0)) st
    = (Fulfilled (t, [outcome], 1), st') /\
    (outcome = lit "PGP_DECRYPTED" \/ outcome = lit "DECRYPTION_ERROR").
Proof.
  rewrite run_decryptStage.
  destruct (passphraseMissing passphrase); [eauto 6|].
  destruct (run W (safe_pgp_sym_decrypt text (passphraseString passphrase)) st)
    as [[d|e] st']; eauto 6.
Qed.

Lemma encryptStage_fulfils (text : JsString) (passphrase : option JsString)
    (st : state W) :
  exists t outcome st',
    run W (encryptStage text passphrase (text, [], 0)) st
    = (Fulfilled (t, [outcome], 1), st') /\
    (outcome = lit "PGP_ENCRYPTED" \/ outcome = lit "ENCRYPTION_ERROR").
Proof.
  rewrite run_encryptStage.
  destruct (passphraseMissing passphrase); [eauto 6|].
  destruct (run W (safe_pgp_sym_encrypt text (passphraseString passphrase)) st)
    as [[d|e] st']; eauto 6.
Qed.

Hypothesis digest_fulfils : digestFulfils W.

Lemma run_generateSHA256Hash (text : JsString) (st : state W) :
  exists h st',
    run W (generateSHA256Hash toUppercase text) st = (Fulfilled h, st').
Proof.
  unfold generateSHA256Hash. rewrite run_bind, run_await.
  destruct (digest_fulfils (TextEncoder_encode (toUpperCase toUppercase text)) st)
    as (h & st' & ->).
  cbn [run]. eauto.
Qed.

Lemma run_hashStage (text t : JsString) (types : list JsString) (n : Z)
    (st : state W) :
  exists h st',
    run W (hashStage toUppercase text (t, types, n)) st
    = (Fulfilled {| originalText := text;
                    transformedText := t;
                    hashedText := Some h;
                    detectedPiiTypes := types ++ [lit "SHA256_HASHED"];
                    transformationCount := n + 1 |}, st').
Proof.
  unfold hashStage. rewrite run_bind.
  destruct (run_generateSHA256Hash t st) as (h & st' & ->).
  cbn [run]. eauto.
Qed.

(** The forward operation on a text that is not blank: the stage, then
    the digest. *)
Lemma run_forward (text : JsString) (passphrase : option JsString)
    (st : state W) :
  ~ whitespaceOnly text ->
  exists t types n st1 h st2,
    run W (decryptStage text passphrase (text, [], 0)) st
    = (Fulfilled (t, types, n), st1) /\
    run W (forwardTransform toUppercase text passphrase) st
    = (Fulfilled {| originalText := text;
                    transformedText := t;
                    hashedText := Some h;
                    detectedPiiTypes := types ++ [lit "SHA256_HASHED"];
                    transformationCount := n + 1 |}, st2).
Proof.
  intros Hblank. unfold forwardTransform, transformPiiData.
  rewrite (trim_not_blank _ Hblank). rewrite run_bind.
  destruct (decryptStage_fulfils text passphrase st) as (t & o & st1 & E & _).
  rewrite E.
  destruct (run_hashStage text t [o] 1 st1) as (h & st2 & E2).
  exists t, [o], 1, st1, h, st2. split; [reflexivity | exact E2].
Qed.

Lemma run_backward (text : JsString) (passphrase : option JsString)
    (st : state W) :
  ~ whitespaceOnly text ->
  exists t types n st1 h st2,
    run W (encryptStage text passphrase (text, [], 0)) st
    = (Fulfilled (t, types, n), st1) /\
    run W (backwardTransform toUppercase text passphrase) st
    = (Fulfilled {| originalText := text;
                    transformedText := t;
                    hashedText := Some h;
                    detectedPiiTypes := types ++ [lit "SHA256_HASHED"];
                    transformationCount := n + 1 |}, st2).
Proof.
  intros Hblank. unfold backwardTransform, backwardTransformPiiData.
  rewrite (trim_not_blank _ Hblank). rewrite run_bind.
  destruct (encryptStage_fulfils text passphrase st) as (t & o & st1 & E & _).
  rewrite E.
  destruct (run_hashStage text t [o] 1 st1) as (h & st2 & E2).
  exists t, [o], 1, st1, h, st2. split; [reflexivity | exact E2].
Qed.

Lemma blank_shape (text okLabel errorLabel : JsString) :
  whitespaceOnly text ->
  resultShape text okLabel errorLabel
    {| originalText := text; transformedText := text; hashedText := None;
       detectedPiiTypes := []; transformationCount := 0 |}.
Proof.
  intros Hblank. unfold resultShape. cbn.
  split; [reflexivity|]. split; [tauto|]. split; [auto|]. tauto.
Qed.

Lemma staged_shape (text t outcome h okLabel errorLabel : JsString) :
  ~ whitespaceOnly text ->
  outcome = okLabel \/ outcome = errorLabel ->
  resultShape text okLabel errorLabel
    {| originalText := text; transformedText := t; hashedText := Some h;
       detectedPiiTypes := [outcome] ++ [lit "SHA256_HASHED"];
       transformationCount := 1 + 1 |}.
Proof.
  intros Hblank Ho. unfold resultShape. cbn.
  split; [reflexivity|]. split; [split; [discriminate | tauto]|].
  split; [tauto|]. intros _. split; [reflexivity|]. eauto.
Qed.

End Orchestrators.

Lemma whitespaceOnly_dec (text : JsString) :
  {whitespaceOnly text} + {~ whitespaceOnly text}.
Proof.
  destruct (falsy (trim text)) eqn:E.
  - left. apply falsy_trim, E.
  - right. intros H. apply falsy_trim in H. congruence.
Defined.

Lemma reference_digest : digestFulfils Reference.world.
Proof. intros data st. exists (SHA256.digest data), st. reflexivity. Qed.

(** C3: in both operations the count is 0 exactly for an empty or
    whitespace-only text, and the result is then the identity with no
    label and no digest; for any other text the count is 2 and the labels
    are the outcome of the crypto stage followed by the digest label. *)
Theorem stage_count (W : World) (toUppercase : Z -> list Z) :
  digestFulfils W ->
  forall (text : JsString) (passphrase : option JsString) (st : state W),
    (exists r st',
       run W (forwardTransform toUppercase text passphrase) st = (Fulfilled r, st') /\
       resultShape text (lit "PGP_DECRYPTED") (lit "DECRYPTION_ERROR") r) /\
    (exists r st',
       run W (backwardTransform toUppercase text passphrase) st = (Fulfilled r, st') /\
       resultShape text (lit "PGP_ENCRYPTED") (lit "ENCRYPTION_ERROR") r).
Proof.
  intros Hd text passphrase st.
  destruct (whitespaceOnly_dec text) as [Hblank | Hblank].
  - unfold forwardTransform, backwardTransform, transformPiiData,
      backwardTransformPiiData.
    rewrite (proj2 (falsy_trim text) Hblank). cbn [run].
    split; do 2 eexists; (split; [reflexivity | apply blank_shape, Hblank]).
  - split.
    + destruct (run_forward W toUppercase Hd text passphrase st Hblank)
        as (t & types & n & st1 & h & st2 & E1 & E2).
      destruct (decryptStage_fulfils W text passphrase st)
        as (t' & o & st1' & E3 & Ho).
      rewrite E3 in E1. injection E1 as <- <- <- <-.
      rewrite E2. do 2 eexists. split; [reflexivity|].
      apply staged_shape; assumption.
    + destruct (run_backward W toUppercase Hd text passphrase st Hblank)
        as (t & types & n & st1 & h & st2 & E1 & E2).
      destruct (encryptStage_fulfils W text passphrase st)
        as (t' & o & st1' & E3 & Ho).
      rewrite E3 in E1. injection E1 as <- <- <- <-.
      rewrite E2. do 2 eexists. split; [reflexivity|].
      apply staged_shape; assumption.
Qed.

Lemma stage_count_witness :
  exists r st',
    run Reference.world
      (forwardTransform Reference.asciiToUppercase (lit "hello") (Some (lit "secret"))) O
    = (Fulfilled r, st') /\
    resultShape (lit "hello") (lit "PGP_DECRYPTED") (lit "DECRYPTION_ERROR") r.
Proof.
  exact (proj1 (stage_count Reference.world Reference.asciiToUppercase
                  reference_digest (lit "hello") (Some (lit "secret")) O)).
Defined.

(** C10, as amended: [transformPiiData] called without [shouldDecrypt],
    or with [false], on a text that is neither empty nor whitespace-only
    runs no crypto stage: it is the digest of the text and nothing else,
    the text comes back unchanged, the only label is the digest label and
    the count is 1. *)
Theorem transform_without_decrypt (W : World) (toUppercase : Z -> list Z) :
  digestFulfils W ->
  forall (text : JsString) (passphrase : option JsString) (st : state W),
    ~ whitespaceOnly text ->
    transformPiiData toUppercase text None passphrase
    = transformPiiData toUppercase text (Some false) passphrase /\
    transformPiiData toUppercase text None passphrase
    = (hashedText <- generateSHA256Hash toUppercase text ;;
       Ret {| originalText := text;
              transformedText := text;
              hashedText := Some hashedText;
              detectedPiiTypes := [lit "SHA256_HASHED"];
              transformationCount := 1 |}) /\
    exists h st',
      run W (transformPiiData toUppercase text None passphrase) st
      = (Fulfilled {| originalText := text;
                      transformedText := text;
                      hashedText := Some h;
                      detectedPiiTypes := [lit "SHA256_HASHED"];
                      transformationCount := 1 |}, st').
Proof.
  intros Hd text passphrase st Hblank.
  split; [reflexivity|].
  assert (E : transformPiiData toUppercase text None passphrase
              = hashStage toUppercase text (text, [], 0)).
  { unfold transformPiiData. rewrite (trim_not_blank _ Hblank). reflexivity. }
  split; [rewrite E; reflexivity|].
  rewrite E. apply (run_hashStage W toUppercase Hd text text [] 0 st).
Qed.

(** On a whitespace-only text the same call is the identity, as in the
    two operations: no digest, no label, count 0. *)
Lemma transform_without_decrypt_blank (toUppercase : Z -> list Z)
    (text : JsString) (shouldDecrypt : option bool) (passphrase : option JsString) :
  whitespaceOnly text ->
  transformPiiData toUppercase text shouldDecrypt passphrase
  = Ret {| originalText := text;
           transformedText := text;
           hashedText := None;
           detectedPiiTypes := [];
           transformationCount := 0 |}.
Proof.
  intros Hblank. unfold transformPiiData.
  rewrite (proj2 (falsy_trim text) Hblank). reflexivity.
Qed.

(** C10, as stated, fails: the text of one space is not empty, and the
    guard [!text.trim()] returns it at once with no label and the count 0;
    the digest is not computed. *)
Lemma transform_without_decrypt_counterexample :
  lit " " <> [] /\
  transformPiiData Reference.asciiToUppercase (lit " ") (Some false) None
  = Ret {| originalText := lit " ";
           transformedText := lit " ";
           hashedText := None;
           detectedPiiTypes := [];
           transformationCount := 0 |} /\
  run Reference.world
    (transformPiiData Reference.asciiToUppercase (lit " ") (Some false) None) O
  = (Fulfilled {| originalText := lit " ";
                  transformedText := lit " ";
                  hashedText := None;
                  detectedPiiTypes := [];
                  transformationCount := 0 |}, O) /\
  0 <> 1.
Proof.
  split; [discriminate|]. split; [reflexivity|]. split; [reflexivity|].
  discriminate.
Qed.

Lemma transform_without_decrypt_witness :
  exists h st',
    run Reference.world
      (transformPiiData Reference.asciiToUppercase (lit "abc") None None) O
    = (Fulfilled {| originalText := lit "abc";
                    transformedText := lit "abc";
                    hashedText := Some h;
                    detectedPiiTypes := [lit "SHA256_HASHED"];
                    transformationCount := 1 |}, st').
Proof.
  refine (proj2 (proj2 (transform_without_decrypt Reference.world
            Reference.asciiToUppercase reference_digest (lit "abc") None O _))).
  apply (not_blank_head 97). reflexivity.
Defined.



Lemma hashStage_rejection (W : World) (toUppercase : Z -> list Z)
    (text : JsString) (locals : JsString * list JsString * Z)
    (st st' : state W) (e : JsThrown) :
  run W (hashStage toUppercase text locals) st = (Rejected e, st') ->
  exists data st1,
    handle W _ (SubtleDigest (lit "SHA-256") data) st1 = (Rejected e, st').
Proof.
  destruct locals as [[t types] n].
  unfold hashStage, generateSHA256Hash. rewrite !run_bind, run_await.
  destruct (handle W _ (SubtleDigest (lit "SHA-256")
              (TextEncoder_encode (toUpperCase toUppercase t))) st)
    as [[h|e0] st0] eqn:E; cbn [run]; intros H; [discriminate|].
  injection H as <- <-. eauto.
Qed.

Lemma forward_rejection (W : World) (toUppercase : Z -> list Z)
    (text : JsString) (passphrase : option JsString) (st : state W) :
  onlyDigestRejects W (forwardTransform toUppercase text passphrase) st.
Proof.
  intros e st'. unfold forwardTransform, transformPiiData.
  destruct (falsy (trim text)); [discriminate|].
  rewrite run_bind.
  destruct (decryptStage_fulfils W text passphrase st) as (t & o & st1 & -> & _).
  apply hashStage_rejection.
Qed.

Lemma backward_rejection (W : World) (toUppercase : Z -> list Z)
    (text : JsString) (passphrase : option JsString) (st : state W) :
  onlyDigestRejects W (backwardTransform toUppercase text passphrase) st.
Proof.
  intros e st'. unfold backwardTransform, backwardTransformPiiData.
  destruct (falsy (trim text)); [discriminate|].
  rewrite run_bind.
  destruct (encryptStage_fulfils W text passphrase st) as (t & o & st1 & -> & _).
  apply hashStage_rejection.
Qed.



(** ** The round trip *)

(** ToNumber of armored text is NaN, so the typed array made from it is
    empty. *)
Lemma newUint8Array_armored (body : JsString) :
  newUint8Array (JsStr (lit "-----BEGIN PGP MESSAGE-----" ++ body)) = Ret [].
Proof. reflexivity. Qed.

Section RoundTrip.

Variable W : World.
Variable toUppercase : Z -> list Z.
Hypothesis digest_fulfils : digestFulfils W.
Hypothesis encrypt_armors : encryptArmors W.

(** With an [openpgp.encrypt] that armors, the envelope that
    [safe_pgp_sym_encrypt] returns is the bare marker. *)
Lemma safe_encrypt_fulfilled (plainText passphrase encrypted : JsString)
    (st st' : state W) :
  run W (safe_pgp_sym_encrypt plainText passphrase) st = (Fulfilled encrypted, st') ->
  encrypted = lit "\x".
Proof.
  unfold safe_pgp_sym_encrypt. rewrite run_tryCatch.
  destruct (falsy passphrase); [discriminate|].
  rewrite run_bind, run_await.
  destruct (handle W _ (OpenpgpCreateMessage plainText) st) as [[m|e] st1];
    [|discriminate].
  rewrite run_bind, run_await.
  destruct (handle W _ (OpenpgpEncrypt m [passphrase] None) st1)
    as [[v|e] st2] eqn:E; [|discriminate].
  destruct (encrypt_armors _ _ _ _ _ E) as [body ->].
  rewrite newUint8Array_armored. cbn [bind run].
  intros H. injection H as <- _. reflexivity.
Qed.

(** A text that is not blank and does not pass the gate comes out of the
    forward operation as the unsupported-format marker. *)
Lemma forward_unsupported (text k : JsString) (st : state W) :
  ~ whitespaceOnly text -> startsWith text (lit "\xc") = false -> k <> [] ->
  exists r st',
    run W (forwardTransform toUppercase text (Some k)) st = (Fulfilled r, st') /\
    transformedText r = unsupportedFormatMarker.
Proof.
  intros Hblank Hgate Hk.
  destruct (run_forward W toUppercase digest_fulfils text (Some k) st Hblank)
    as (t & types & n & st1 & h & st2 & E1 & E2).
  rewrite E2. do 2 eexists. split; [reflexivity|]. cbn [transformedText].
  rewrite run_decryptStage in E1.
  assert (Hmiss : passphraseMissing (Some k) = false)
    by (destruct k; [contradiction | reflexivity]).
  rewrite Hmiss in E1. cbn [passphraseString] in E1.
  rewrite (safe_decrypt_gate text k Hgate) in E1.
  cbn [run unsupportedFormat] in E1. injection E1 as <- _ _ _. reflexivity.
Qed.

(** What the encrypt stage leaves as [transformedText]: the bare marker
    when the library fulfilled, a failure marker otherwise. *)
Lemma encryptStage_text (text k t : JsString) (types : list JsString) (n : Z)
    (st st' : state W) :
  run W (encryptStage text (Some k) (text, [], 0)) st = (Fulfilled (t, types, n), st') ->
  (t = lit "\x" /\ types = [lit "PGP_ENCRYPTED"]) \/
  (exists e, t = lit "[ENCRYPTION_FAILED: " ++ errorMessage e ++ lit "]"
             /\ types = [lit "ENCRYPTION_ERROR"]).
Proof.
  rewrite run_encryptStage.
  destruct (passphraseMissing (Some k)).
  - intros H. injection H as <- <- _ _. right.
    exists (JsError (lit "Passphrase is required for encryption")).
    split; reflexivity.
  - cbn [passphraseString].
    destruct (run W (safe_pgp_sym_encrypt text k) st) as [[x|e] st1] eqn:E;
      intros H; injection H as <- <- _ _.
    + left. split; [|reflexivity]. eapply safe_encrypt_fulfilled, E.
    + right. eexists. split; reflexivity.
Qed.

End RoundTrip.

(** C1, evaluated: where [openpgp.encrypt] armors its output unless asked
    for binary, the backward operation succeeds with the bare marker as
    its envelope, and the forward operation turns whatever the backward
    one produced into the unsupported-format marker, never into the
    plaintext. *)
Theorem roundtrip_lost (W : World) (toUppercase : Z -> list Z) :
  digestFulfils W -> encryptArmors W ->
  forall (p k : JsString) (st : state W),
    ~ whitespaceOnly p -> k <> [] ->
    exists r1 st1,
      run W (backwardTransform toUppercase p (Some k)) st = (Fulfilled r1, st1) /\
      (In (lit "PGP_ENCRYPTED") (detectedPiiTypes r1) -> transformedText r1 = lit "\x") /\
      forall st1', exists r2 st2,
        run W (forwardTransform toUppercase (transformedText r1) (Some k)) st1'
        = (Fulfilled r2, st2) /\
        transformedText r2 = unsupportedFormatMarker /\
        (p <> unsupportedFormatMarker -> transformedText r2 <> p).
Proof.
  intros Hd Harm p k st Hblank Hk.
  destruct (run_backward W toUppercase Hd p (Some k) st Hblank)
    as (t & types & n & st1 & h & st2 & E1 & E2).
  rewrite E2. do 2 eexists. split; [reflexivity|]. cbn [transformedText detectedPiiTypes].
  apply (encryptStage_text W Harm) in E1.
  assert (Ht : ~ whitespaceOnly t /\ startsWith t (lit "\xc") = false).
  { destruct E1 as [[-> _] | (e & -> & _)].
    - split; [apply (not_blank_head 92); reflexivity | reflexivity].
    - split; [apply (not_blank_head 91); reflexivity | reflexivity]. }
  split.
  - destruct E1 as [[-> _] | (e & _ & ->)]; [reflexivity|].
    intros [H | [H | []]]; discriminate.
  - intros st1'.
    destruct (forward_unsupported W toUppercase Hd t k st1' (proj1 Ht) (proj2 Ht) Hk)
      as (r2 & st2' & Hrun & Hmarker).
    exists r2, st2'. split; [exact Hrun|]. split; [exact Hmarker|].
    intros Hp. rewrite Hmarker. congruence.
Qed.

Lemma reference_armors : encryptArmors Reference.world.
Proof.
  intros message passwords st value st' H. cbn in H.
  unfold Reference.encrypt in H.
  destruct passwords as [|pw [|]]; try discriminate.
  injection H as <- _. eexists. reflexivity.
Qed.

Lemma roundtrip_lost_witness :
  exists r1 st1,
    run Reference.world
      (backwardTransform Reference.asciiToUppercase (lit "hello") (Some (lit "secret"))) O
    = (Fulfilled r1, st1) /\
    exists r2 st2,
      run Reference.world
        (forwardTransform Reference.asciiToUppercase (transformedText r1)
           (Some (lit "secret"))) st1
      = (Fulfilled r2, st2) /\
      transformedText r2 <> lit "hello".
Proof.
  destruct (roundtrip_lost Reference.world Reference.asciiToUppercase
              reference_digest reference_armors (lit "hello") (lit "secret") O
              (not_blank_head 104 _ eq_refl) ltac:(discriminate))
    as (r1 & st1 & Hrun & _ & Hforward).
  exists r1, st1. split; [exact Hrun|].
  destruct (Hforward st1) as (r2 & st2 & Hrun2 & _ & Hne).
  exists r2, st2. split; [exact Hrun2|]. apply Hne. discriminate.
Defined.

(** ** Upper-casing is idempotent *)

Ltac ranges :=
  unfold validCodePoint, isLeadingSurrogate, isTrailingSurrogate, isSurrogate,
    UTF16SurrogatePairToCodePoint in *;
  rewrite ?andb_true_iff, ?andb_false_iff, ?Z.leb_le, ?Z.leb_gt in *;
  try lia.

Lemma StringToCodePoints_cons2 (c d : Z) (s : JsString) :
  StringToCodePoints (c :: d :: s) =
  if isLeadingSurrogate c && isTrailingSurrogate d
  then UTF16SurrogatePairToCodePoint c d :: StringToCodePoints s
  else c :: StringToCodePoints (d :: s).
Proof. reflexivity. Qed.

Lemma codePoints_valid (s : JsString) :
  wellFormed s -> Forall validCodePoint (StringToCodePoints s).
Proof.
  unfold wellFormed.
  induction s as [| a | a b s IH1 IH2] using list_ind2; intros Hwf.
  - constructor.
  - inversion Hwf; subst. repeat constructor; ranges.
  - rewrite StringToCodePoints_cons2.
    inversion Hwf as [|? ? Ha Hwf']; subst. inversion Hwf' as [|? ? Hb Hwf'']; subst.
    destruct (isLeadingSurrogate a && isTrailingSurrogate b) eqn:E.
    + constructor; [|auto]. ranges.
    + constructor; [ranges | auto].
Qed.

Lemma codePoints_head (d : Z) (s : JsString) :
  isTrailingSurrogate d = false ->
  match StringToCodePoints (d :: s) with
  | x :: _ => isTrailingSurrogate x = false
  | [] => True
  end.
Proof.
  intros Hd. destruct s as [|e s]; [exact Hd|].
  rewrite StringToCodePoints_cons2.
  destruct (isLeadingSurrogate d && isTrailingSurrogate e) eqn:E; [|exact Hd].
  ranges.
Qed.

Lemma codePoints_noSplitPair (s : JsString) :
  noSplitPair (StringToCodePoints s).
Proof.
  induction s as [| a | a b s IH1 IH2] using list_ind2.
  - exact I.
  - split; exact I.
  - rewrite StringToCodePoints_cons2.
    destruct (isLeadingSurrogate a && isTrailingSurrogate b) eqn:E.
    + split; [|exact IH1].
      destruct (StringToCodePoints s); [exact I|]. ranges.
    + split; [|exact IH2].
      pose proof (codePoints_head b s) as Hhead.
      destruct (StringToCodePoints (b :: s)) as [|x r]; [exact I|].
      destruct (isLeadingSurrogate a) eqn:Ea; [|reflexivity].
      cbn [andb] in E |- *. apply Hhead, E.
Qed.

Section UpperCase.

Variable toUppercase : Z -> list Z.
Hypothesis table : UpperCaseTable toUppercase.

Lemma upperAll_valid (cps : list Z) :
  Forall validCodePoint cps -> Forall validCodePoint (upperAll toUppercase cps).
Proof.
  unfold upperAll. induction 1 as [|c cps Hc _ IH]; [constructor|].
  cbn [map concat]. apply Forall_app. split; [|exact IH].
  apply Forall_forall. intros d Hd. apply list_elem_of_In in Hd.
  apply (upper_range _ table c d Hc Hd).
Qed.

Lemma upperAll_fixed (cps : list Z) :
  Forall validCodePoint cps ->
  Forall (fun d => toUppercase d = [d]) (upperAll toUppercase cps).
Proof.
  unfold upperAll. induction 1 as [|c cps Hc _ IH]; [constructor|].
  cbn [map concat]. apply Forall_app. split; [|exact IH].
  apply Forall_forall. intros d Hd. apply list_elem_of_In in Hd.
  apply (upper_fixed _ table c d Hc Hd).
Qed.

Lemma upperAll_id (u : list Z) :
  Forall (fun d => toUppercase d = [d]) u -> upperAll toUppercase u = u.
Proof.
  unfold upperAll. induction 1 as [|d u Hd _ IH]; [reflexivity|].
  cbn [map concat]. rewrite Hd, IH. reflexivity.
Qed.

(** A trailing surrogate at the head of an upper-cased text was at the
    head of the text. *)
Lemma upperAll_head (cps : list Z) (x : Z) (rest : list Z) :
  Forall validCodePoint cps ->
  upperAll toUppercase cps = x :: rest -> isTrailingSurrogate x = true ->
  exists cps', cps = x :: cps'.
Proof.
  unfold upperAll. intros Hv E Hx.
  destruct cps as [|c cps]; [discriminate|].
  inversion Hv as [|? ? Hc _]; subst.
  cbn [map concat] in E.
  destruct (isSurrogate c) eqn:Ec.
  - rewrite (upper_surrogate _ table c Ec) in E.
    injection E as -> _. eauto.
  - pose proof (upper_nonempty _ table c Hc) as Hne.
    pose proof (upper_no_surrogate _ table c x Hc Ec) as Hns.
    destruct (toUppercase c) as [|y l]; [contradiction|].
    injection E as -> _. specialize (Hns (or_introl eq_refl)). ranges.
Qed.

Lemma noSplitPair_app (l u : list Z) :
  Forall (fun d => isSurrogate d = false) l -> noSplitPair u ->
  noSplitPair (l ++ u).
Proof.
  induction 1 as [|x l Hx _ IH]; intros Hu; [exact Hu|].
  cbn [app noSplitPair]. split; [|exact (IH Hu)].
  destruct (l ++ u); [exact I|].
  destruct (isLeadingSurrogate x) eqn:E; [|reflexivity]. ranges.
Qed.

Lemma upperAll_noSplitPair (cps : list Z) :
  Forall validCodePoint cps -> noSplitPair cps -> noSplitPair (upperAll toUppercase cps).
Proof.
  induction 1 as [|c cps Hc Hv IH]; intros Hsplit; [exact I|].
  destruct Hsplit as [Hhead Hrest]. specialize (IH Hrest).
  change (upperAll toUppercase (c :: cps)) with (toUppercase c ++ upperAll toUppercase cps).
  destruct (isSurrogate c) eqn:Ec.
  - rewrite (upper_surrogate _ table c Ec).
    cbn [app noSplitPair]. split; [|exact IH].
    destruct (upperAll toUppercase cps) as [|x rest] eqn:E; [exact I|].
    destruct (isTrailingSurrogate x) eqn:Ex; [|apply andb_false_r].
    destruct (upperAll_head cps x rest Hv E Ex) as [cps' ->].
    rewrite Ex in Hhead. exact Hhead.
  - apply noSplitPair_app; [|exact IH].
    apply Forall_forall. intros d Hd. apply list_elem_of_In in Hd.
    apply (upper_no_surrogate _ table c d Hc Ec Hd).
Qed.

End UpperCase.

Lemma encode_decode (u : list Z) :
  Forall validCodePoint u -> noSplitPair u ->
  StringToCodePoints (CodePointsToString u) = u.
Proof.
  unfold CodePointsToString.
  induction 1 as [|d u Hd Hv IH]; intros Hsplit; [reflexivity|].
  destruct Hsplit as [Hhead Hrest]. specialize (IH Hrest).
  cbn [map concat]. unfold UTF16EncodeCodePoint at 1.
  destruct (Z.leb_spec d 0xFFFF) as [Hbmp | Hsup].
  - cbn [app].
    destruct (concat (map UTF16EncodeCodePoint u)) as [|e r] eqn:E.
    + cbn in IH. subst u. reflexivity.
    + rewrite StringToCodePoints_cons2.
      destruct (isLeadingSurrogate d && isTrailingSurrogate e) eqn:Epair;
        [|rewrite IH; reflexivity].
      exfalso. destruct u as [|d' u']; [discriminate|].
      cbn [map concat] in E. unfold UTF16EncodeCodePoint at 1 in E.
      inversion Hv as [|? ? Hd' _]; subst.
      destruct (Z.leb_spec d' 0xFFFF).
      * injection E as -> _. congruence.
      * injection E as <- _. ranges.
        assert ((d' - 0x10000) / 0x400 < 0x400)
          by (apply Z.div_lt_upper_bound; lia).
        lia.
  - cbn [app]. rewrite StringToCodePoints_cons2.
    assert (Hhi : 0 <= (d - 0x10000) / 0x400 < 0x400).
    { split; [apply Z.div_pos; ranges | apply Z.div_lt_upper_bound; ranges]. }
    pose proof (Z.mod_pos_bound (d - 0x10000) 0x400 ltac:(lia)) as Hlo.
    replace (isLeadingSurrogate ((d - 0x10000) / 0x400 + 0xD800)
             && isTrailingSurrogate ((d - 0x10000) mod 0x400 + 0xDC00)) with true.
    2:{ symmetry. ranges. }
    rewrite IH. f_equal. unfold UTF16SurrogatePairToCodePoint.
    pose proof (Z.div_mod (d - 0x10000) 0x400 ltac:(lia)). lia.
Qed.

(** [s.toUpperCase().toUpperCase()] is [s.toUpperCase()]. *)
Lemma toUpperCase_idempotent (toUppercase : Z -> list Z) (s : JsString) :
  UpperCaseTable toUppercase -> wellFormed s ->
  toUpperCase toUppercase (toUpperCase toUppercase s) = toUpperCase toUppercase s.
Proof.
  intros table Hwf. unfold toUpperCase.
  pose proof (codePoints_valid s Hwf) as Hv.
  pose proof (codePoints_noSplitPair s) as Hsplit.
  rewrite encode_decode.
  - rewrite (upperAll_id toUppercase); [reflexivity|].
    apply upperAll_fixed; assumption.
  - apply upperAll_valid; assumption.
  - apply upperAll_noSplitPair; assumption.
Qed.

Lemma toUpperCase_abc (toUppercase : Z -> list Z) :
  UpperCaseTable toUppercase ->
  toUpperCase toUppercase (lit "abc") = lit "ABC" /\
  toUpperCase toUppercase (lit "ABC") = lit "ABC".
Proof.
  intros table.
  assert (Hlow : forall c, 97 <= c <= 122 -> toUppercase c = [c - 32])
    by apply (upper_ascii _ table).
  assert (Hup : forall c, 97 <= c <= 122 -> toUppercase (c - 32) = [c - 32]).
  { intros c Hc. apply (upper_fixed _ table c); [lia|]. rewrite Hlow by lia. left. reflexivity. }
  split.
  - change (toUpperCase toUppercase (lit "abc"))
      with (CodePointsToString
              (toUppercase 97 ++ toUppercase 98 ++ toUppercase 99 ++ [])).
    rewrite (Hlow 97), (Hlow 98), (Hlow 99) by lia. reflexivity.
  - change (toUpperCase toUppercase (lit "ABC"))
      with (CodePointsToString
              (toUppercase (97 - 32) ++ toUppercase (98 - 32)
               ++ toUppercase (99 - 32) ++ [])).
    rewrite (Hup 97), (Hup 98), (Hup 99) by lia. reflexivity.
Qed.

(** ** The digest *)

(** C7: the digest does not see the case of its input: the digest of a
    text is the digest of its upper-cased form, and that of "abc" is that of
    "ABC".  Stated on the programs themselves: they are the same call on
    the same bytes, in every world. *)
Theorem hash_case_insensitive (toUppercase : Z -> list Z) :
  UpperCaseTable toUppercase ->
  (forall s, wellFormed s ->
     generateSHA256Hash toUppercase s
     = generateSHA256Hash toUppercase (toUpperCase toUppercase s)) /\
  generateSHA256Hash toUppercase (lit "abc")
  = generateSHA256Hash toUppercase (lit "ABC").
Proof.
  intros table. split.
  - intros s Hwf. unfold generateSHA256Hash.
    rewrite (toUpperCase_idempotent toUppercase s table Hwf). reflexivity.
  - unfold generateSHA256Hash.
    destruct (toUpperCase_abc toUppercase table) as [-> ->]. reflexivity.
Qed.

Lemma reference_table : UpperCaseTable Reference.asciiToUppercase.
Proof.
  unfold Reference.asciiToUppercase.
  split.
  - intros c _. destruct ((97 <=? c) && (c <=? 122)); discriminate.
  - intros c d Hc.
    destruct ((97 <=? c) && (c <=? 122)) eqn:E; intros [<- | []]; ranges.
  - intros c d Hc.
    destruct ((97 <=? c) && (c <=? 122)) eqn:E; intros [<- | []].
    + replace ((97 <=? c - 32) && (c - 32 <=? 122)) with false; [reflexivity|].
      symmetry. ranges.
    + rewrite E. reflexivity.
  - intros c Hc.
    replace ((97 <=? c) && (c <=? 122)) with false; [reflexivity|].
    symmetry. ranges.
  - intros c d Hc Hs.
    destruct ((97 <=? c) && (c <=? 122)) eqn:E; intros [<- | []]; [ranges | exact Hs].
  - intros c Hc.
    replace ((97 <=? c) && (c <=? 122)) with true; [reflexivity|].
    symmetry. ranges.
Qed.

Lemma wellFormed_check (s : JsString) :
  forallb (fun c => (0 <=? c) && (c <=? 0xFFFF)) s = true -> wellFormed s.
Proof.
  unfold wellFormed. rewrite forallb_forall, Forall_forall.
  intros H c Hc. apply list_elem_of_In, H in Hc. ranges.
Qed.

Lemma hash_case_insensitive_witness :
  generateSHA256Hash Reference.asciiToUppercase (lit "test@example.com")
  = generateSHA256Hash Reference.asciiToUppercase (lit "TEST@EXAMPLE.COM").
Proof.
  exact (proj1 (hash_case_insensitive Reference.asciiToUppercase reference_table)
           (lit "test@example.com")
           (wellFormed_check (lit "test@example.com") eq_refl)).
Defined.

Lemma hexByte_format (x : byte) :
  length (hexByte x) = 2%nat /\ forallb isLowerHex (hexByte x) = true.
Proof. destruct x; vm_compute; split; reflexivity. Qed.

Lemma hex_format (b : list byte) :
  length (join (map hexByte b)) = (2 * length b)%nat /\
  Forall (fun c => isLowerHex c = true) (join (map hexByte b)).
Proof.
  unfold join. induction b as [|x b [IHl IHf]]; [split; [reflexivity | constructor]|].
  destruct (hexByte_format x) as [Hl Hf].
  cbn [map concat length]. rewrite length_app, Hl, IHl. split; [lia|].
  apply Forall_app. split; [|assumption].
  rewrite forallb_forall in Hf. apply Forall_forall.
  intros c Hc. apply Hf, list_elem_of_In, Hc.
Qed.

(** C8: for every text the digest is one value, the same in whatever
    state the world is, of exactly 64 characters, each a digit or a letter
    a-f. *)
Theorem digest_format (W : World) (toUppercase : Z -> list Z)
    (sha : list byte -> list byte) :
  digestIs W sha ->
  forall text, exists h,
    (forall st, run W (generateSHA256Hash toUppercase text) st = (Fulfilled h, st)) /\
    length h = 64%nat /\
    Forall (fun c => isLowerHex c = true) h.
Proof.
  intros [Hlen Hsha] text.
  set (data := TextEncoder_encode (toUpperCase toUppercase text)).
  exists (join (map hexByte (sha data))).
  destruct (hex_format (sha data)) as [Hl Hf].
  split; [|split; [|exact Hf]].
  - intros st. unfold generateSHA256Hash. rewrite run_bind, run_await.
    fold data. rewrite (Hsha data st). reflexivity.
  - rewrite Hl, Hlen. reflexivity.
Qed.

Lemma reference_sha : digestIs Reference.world SHA256.digest.
Proof. split; intros; reflexivity. Qed.

Lemma digest_format_witness :
  exists h,
    (forall st,
       run Reference.world
         (generateSHA256Hash Reference.asciiToUppercase (lit "abc")) st
       = (Fulfilled h, st)) /\
    length h = 64%nat /\
    Forall (fun c => isLowerHex c = true) h.
Proof.
  exact (digest_format Reference.world Reference.asciiToUppercase SHA256.digest
           reference_sha (lit "abc")).
Defined.

(** ** Evaluations in the reference world *)

Example sha256_abc :
  join (map hexByte (SHA256.digest [x61; x62; x63]))
  = lit "ba7816bf8f01cfea414140de5dae2223b00361a396177a9cb410ff61f20015ad".
Proof. vm_compute. reflexivity. Qed.

Example generateSHA256Hash_abc :
  fst (run Reference.world
         (generateSHA256Hash Reference.asciiToUppercase (lit "abc")) O)
  = Fulfilled (lit "b5d4045c3f466fa91fe2cc6abe79232a1a57cdf104f7a26e716e0a1e2789df78").
Proof. vm_compute. reflexivity. Qed.

(** The scenario of the specification: [backwardTransform("hello",
    "secret")], then [forwardTransform] of its output. *)
Example backward_hello :
  match run Reference.world
          (backwardTransform Reference.asciiToUppercase (lit "hello")
             (Some (lit "secret"))) O with
  | (Fulfilled r, _) =>
      transformedText r = lit "\x" /\
      detectedPiiTypes r = [lit "PGP_ENCRYPTED"; lit "SHA256_HASHED"]
  | (Rejected _, _) => False
  end.
Proof. vm_compute. split; reflexivity. Qed.

Example forward_of_backward_hello :
  match run Reference.world
          (forwardTransform Reference.asciiToUppercase (lit "\x")
             (Some (lit "secret"))) (S O) with
  | (Fulfilled r, _) =>
      transformedText r = unsupportedFormatMarker /\
      detectedPiiTypes r = [lit "DECRYPTION_ERROR"; lit "SHA256_HASHED"]
  | (Rejected _, _) => False
  end.
Proof. vm_compute. split; reflexivity. Qed.

(** An envelope in binary form does open in the reference world. *)
Example forward_binary_envelope :
  match run Reference.world
          (forwardTransform Reference.asciiToUppercase
             (lit "\xc3000002006b00680069") (Some (lit "k"))) O with
  | (Fulfilled r, _) =>
      transformedText r = lit "hi" /\
      detectedPiiTypes r = [lit "PGP_DECRYPTED"; lit "SHA256_HASHED"]
  | (Rejected _, _) => False
  end.
Proof. vm_compute. split; reflexivity. Qed.

(** ** What the round trip needs

    Had [openpgp.encrypt] resolved to the binary message, as the cast to
    [ArrayBuffer] takes it to, the two operations would be inverse to each
    other wherever the library itself is: the gate, the codec and the two
    orchestrators are in the way of nothing. *)

Section BinaryEnvelope.

Variable W : World.
Variable toUppercase : Z -> list Z.
Hypothesis digest_fulfils : digestFulfils W.
Hypothesis gives_binary : encryptGivesBinary W.
Variables p k : JsString.
Hypothesis library : libraryRoundTrip W p k.

Lemma safe_encrypt_binary (st : state W) :
  k <> [] ->
  exists m st1 b st2,
    handle W _ (OpenpgpCreateMessage p) st = (Fulfilled m, st1) /\
    handle W _ (OpenpgpEncrypt m [k] None) st1 = (Fulfilled (JsBytes (xc3 :: b)), st2) /\
    run W (safe_pgp_sym_encrypt p k) st
    = (Fulfilled (uint8ArrayToHex (xc3 :: b)), st2).
Proof.
  intros Hk. destruct library as (Hcreate & Hencrypt & _).
  destruct (Hcreate st) as (m & st1 & E1).
  destruct (Hencrypt m st1) as (value & st2 & E2).
  destruct (gives_binary _ _ _ _ _ E2) as [b ->].
  exists m, st1, b, st2. split; [exact E1|]. split; [exact E2|].
  unfold safe_pgp_sym_encrypt. rewrite run_tryCatch.
  destruct k as [|c k']; [contradiction|]. cbn [falsy].
  rewrite run_bind, run_await, E1, run_bind, run_await, E2. reflexivity.
Qed.

Lemma safe_decrypt_binary (b : list byte) (m : Message)
    (st st1 st2 st3 : state W) :
  k <> [] ->
  handle W _ (OpenpgpCreateMessage p) st = (Fulfilled m, st1) ->
  handle W _ (OpenpgpEncrypt m [k] None) st1 = (Fulfilled (JsBytes (xc3 :: b)), st2) ->
  exists st',
    run W (safe_pgp_sym_decrypt (uint8ArrayToHex (xc3 :: b)) k) st3
    = (Fulfilled p, st').
Proof.
  intros Hk E1 E2. destruct library as (_ & _ & Hround).
  destruct (Hround st m st1 (xc3 :: b) st2 E1 E2 st3)
    as (m' & st4 & st5 & E3 & E4).
  exists st5. unfold safe_pgp_sym_decrypt. rewrite run_tryCatch.
  change (startsWith (uint8ArrayToHex (xc3 :: b)) (lit "\xc")) with true.
  destruct k as [|c k']; [contradiction|]. cbn [negb falsy].
  unfold decryptPGP. rewrite decode_encode.
  rewrite run_bind, run_await, E3, run_bind, run_await, E4. reflexivity.
Qed.

Lemma roundtrip_with_binary (st : state W) :
  ~ whitespaceOnly p -> k <> [] ->
  exists r1 st1,
    run W (backwardTransform toUppercase p (Some k)) st = (Fulfilled r1, st1) /\
    forall st1', exists r2 st2,
      run W (forwardTransform toUppercase (transformedText r1) (Some k)) st1'
      = (Fulfilled r2, st2) /\
      transformedText r2 = p.
Proof.
  intros Hblank Hk.
  assert (Hmiss : passphraseMissing (Some k) = false)
    by (destruct k; [contradiction | reflexivity]).
  destruct (safe_encrypt_binary st Hk) as (m & sa & b & sb & E1 & E2 & Eenc).
  destruct (run_backward W toUppercase digest_fulfils p (Some k) st Hblank)
    as (t & types & n & st1 & h & st2 & Hstage & Hrun).
  rewrite run_encryptStage, Hmiss in Hstage. cbn [passphraseString] in Hstage.
  rewrite Eenc in Hstage. injection Hstage as <- _ _ _.
  rewrite Hrun. do 2 eexists. split; [reflexivity|].
  cbn [transformedText]. intros st1'.
  destruct (run_forward W toUppercase digest_fulfils
              (uint8ArrayToHex (xc3 :: b)) (Some k) st1'
              (not_blank_head 92 _ eq_refl))
    as (t' & types' & n' & sc & h' & sd & Hstage' & Hrun').
  rewrite run_decryptStage, Hmiss in Hstage'. cbn [passphraseString] in Hstage'.
  destruct (safe_decrypt_binary b m st sa sb st1' Hk E1 E2) as [se Edec].
  rewrite Edec in Hstage'. injection Hstage' as <- _ _ _.
  rewrite Hrun'. do 2 eexists. split; reflexivity.
Qed.

End BinaryEnvelope.

Lemma binaryWorld_contracts :
  digestFulfils Reference.binaryWorld /\
  encryptGivesBinary Reference.binaryWorld /\
  libraryRoundTrip Reference.binaryWorld (lit "hello") (lit "secret").
Proof.
  split; [|split].
  - intros data st. exists (SHA256.digest data), st. reflexivity.
  - intros message passwords st value st' H.
    destruct passwords as [|pw [|]]; try discriminate.
    injection H as <- _. eexists. reflexivity.
  - split; [|split].
    + intros st. do 2 eexists. reflexivity.
    + intros m st. do 2 eexists. reflexivity.
    + intros st m st1 b st2 E1 E2 st3.
      injection E1 as <- <-. injection E2 as <- _.
      do 3 eexists. split; reflexivity.
Qed.

Example roundtrip_binary_hello :
  exists r1 st1,
    run Reference.binaryWorld
      (backwardTransform Reference.asciiToUppercase (lit "hello") (Some (lit "secret"))) O
    = (Fulfilled r1, st1) /\
    exists r2 st2,
      run Reference.binaryWorld
        (forwardTransform Reference.asciiToUppercase (transformedText r1)
           (Some (lit "secret"))) st1
      = (Fulfilled r2, st2) /\
      transformedText r2 = lit "hello".
Proof.
  destruct binaryWorld_contracts as (Hd & Hb & Hl).
  destruct (roundtrip_with_binary Reference.binaryWorld Reference.asciiToUppercase
              Hd Hb (lit "hello") (lit "secret") Hl O
              (not_blank_head 104 _ eq_refl) ltac:(discriminate))
    as (r1 & st1 & Hrun & Hforward).
  exists r1, st1. split; [exact Hrun | apply Hforward].
Qed.

(** ** More on the hex codec *)

Lemma stripMarker_encoded (h : JsString) : stripMarker (lit "\x" ++ h) = h.
Proof. reflexivity. Qed.

Lemma hexByte_head (x : byte) :
  match hexByte x with
  | h :: _ => (h =? 92) = false
  | [] => False
  end.
Proof. destruct x; vm_compute; reflexivity. Qed.

Lemma stripMarker_digits (b : list byte) :
  stripMarker (join (map hexByte b)) = join (map hexByte b).
Proof.
  unfold stripMarker, join. destruct b as [|x b]; [reflexivity|].
  cbn [map concat]. pose proof (hexByte_head x) as Hx.
  destruct (hexByte x) as [|h l]; [contradiction|].
  change (lit "\x") with [92; 120]. cbn [app startsWith].
  rewrite Hx. reflexivity.
Qed.

(** The marker is optional: the hex digits of a byte sequence decode to
    it without the marker as well. *)
Theorem decode_without_marker (b : list byte) :
  hexToUint8Array (join (map hexByte b)) = b.
Proof.
  rewrite hexToUint8Array_decodePairs, stripMarker_digits.
  apply decodePairs_hex.
Qed.

Lemma hexByte_upper_decodes (x : byte) :
  length (hexByte x) = 2%nat /\
  decodePairs (map upperHexDigit (hexByte x)) = [x].
Proof. destruct x; vm_compute; split; reflexivity. Qed.

(** Digits in upper case are read as well: the encoding of a byte
    sequence with its digits A-F in upper case decodes to the same bytes. *)
Theorem decode_upper_case (b : list byte) :
  hexToUint8Array (lit "\x" ++ map upperHexDigit (join (map hexByte b))) = b.
Proof.
  rewrite hexToUint8Array_decodePairs, stripMarker_encoded.
  unfold join. induction b as [|x b IH]; [reflexivity|].
  destruct (hexByte_upper_decodes x) as [Hlen Hdec].
  cbn [map concat]. rewrite map_app.
  destruct (hexByte x) as [|h [|l [|]]]; try discriminate.
  cbn [map app decodePairs] in *. injection Hdec as ->. rewrite IH. reflexivity.
Qed.

Lemma lowerHex_cases (c : Z) :
  isLowerHex c = true ->
  c = 48 \/ c = 49 \/ c = 50 \/ c = 51 \/ c = 52 \/ c = 53 \/ c = 54 \/ c = 55 \/
  c = 56 \/ c = 57 \/ c = 97 \/ c = 98 \/ c = 99 \/ c = 100 \/ c = 101 \/ c = 102.
Proof.
  unfold isLowerHex. rewrite orb_true_iff, !andb_true_iff, !Z.leb_le. lia.
Qed.

Lemma hexByte_of_pair (a b : Z) :
  isLowerHex a = true -> isLowerHex b = true ->
  hexByte (ToUint8 (parseInt16 [a; b])) = [a; b].
Proof.
  intros Ha Hb.
  apply lowerHex_cases in Ha. apply lowerHex_cases in Hb.
  repeat (destruct Ha as [-> | Ha]); try subst a;
    repeat (destruct Hb as [-> | Hb]); try subst b;
    vm_compute; reflexivity.
Qed.

(** The other round trip: a text made of the marker and an even number of
    digits 0-9a-f is what the encoder gives back for its decoding. *)
Theorem encode_decode_canonical (h : JsString) :
  Nat.even (length h) = true ->
  Forall (fun c => isLowerHex c = true) h ->
  uint8ArrayToHex (hexToUint8Array (lit "\x" ++ h)) = lit "\x" ++ h.
Proof.
  intros Heven Hhex.
  rewrite hexToUint8Array_decodePairs, stripMarker_encoded.
  unfold uint8ArrayToHex. f_equal. unfold join.
  induction h as [| a | a b h IH _] using list_ind2.
  - reflexivity.
  - discriminate.
  - inversion Hhex as [|? ? Ha Hhex']; subst.
    inversion Hhex' as [|? ? Hb Hhex'']; subst.
    cbn [decodePairs map concat].
    rewrite (hexByte_of_pair a b Ha Hb), (IH Heven Hhex''). reflexivity.
Qed.

Lemma encode_decode_canonical_witness :
  uint8ArrayToHex (hexToUint8Array (lit "\xc30d04070302"))
  = lit "\xc30d04070302".
Proof.
  apply (encode_decode_canonical (lit "c30d04070302")).
  - reflexivity.
  - apply Forall_forall. intros c Hc.
    apply list_elem_of_In in Hc.
    assert (H : forallb isLowerHex (lit "c30d04070302") = true) by reflexivity.
    rewrite forallb_forall in H. apply H, Hc.
Defined.

Lemma decodePairs_app (h t : JsString) :
  Nat.even (length h) = true ->
  decodePairs (h ++ t) = decodePairs h ++ decodePairs t.
Proof.
  induction h as [| a | a b h IH _] using list_ind2; intros Heven.
  - reflexivity.
  - discriminate.
  - cbn [app decodePairs]. rewrite (IH Heven). reflexivity.
Qed.

Lemma hex_even (b : list byte) : Nat.even (length (join (map hexByte b))) = true.
Proof.
  rewrite (proj1 (hex_format b)). apply Nat.even_spec. exists (length b). lia.
Qed.

(** What is pasted after an envelope: one more character is dropped, two
    white-space characters (a CR LF, say) add a zero byte. *)
Theorem decode_trailing (b : list byte) :
  (forall c, hexToUint8Array (uint8ArrayToHex b ++ [c]) = b) /\
  (forall c1 c2, isWhiteSpace c1 = true -> isWhiteSpace c2 = true ->
     hexToUint8Array (uint8ArrayToHex b ++ [c1; c2]) = b ++ [x00]).
Proof.
  split.
  - intros c. rewrite hexToUint8Array_decodePairs.
    change (stripMarker (uint8ArrayToHex b ++ [c]))
      with (join (map hexByte b) ++ [c]).
    rewrite decodePairs_app by apply hex_even.
    rewrite decodePairs_hex. apply app_nil_r.
  - intros c1 c2 H1 H2. rewrite hexToUint8Array_decodePairs.
    change (stripMarker (uint8ArrayToHex b ++ [c1; c2]))
      with (join (map hexByte b) ++ [c1; c2]).
    rewrite decodePairs_app by apply hex_even.
    rewrite decodePairs_hex. f_equal.
    cbn [decodePairs]. unfold parseInt16. cbn [trimStart].
    rewrite H1, H2. reflexivity.
Qed.

Lemma decode_trailing_witness :
  hexToUint8Array (uint8ArrayToHex [xc3; x0d] ++ [13; 10]) = [xc3; x0d; x00].
Proof.
  apply (proj2 (decode_trailing [xc3; x0d]) 13 10); reflexivity.
Defined.

Lemma readDigits_no_digit (s : JsString) :
  Forall (fun c => isRadixDigit 16 c = false) s ->
  readDigits 16 s None = None.
Proof.
  intros H. destruct s as [|c s]; [reflexivity|].
  inversion H as [|? ? Hc _]; subst.
  cbn [readDigits]. unfold isRadixDigit in Hc.
  destruct (digitValue c) as [d|]; [rewrite Hc|]; reflexivity.
Qed.

Lemma trimStart_Forall (P : Z -> Prop) (s : JsString) :
  Forall P s -> Forall P (trimStart s).
Proof.
  induction 1 as [|c s Hc Hs IH]; [constructor|].
  cbn [trimStart]. destruct (isWhiteSpace c); [exact IH | constructor; assumption].
Qed.

Ltac split_forall :=
  repeat match goal with
         | H : Forall _ (_ :: _) |- _ => inversion H; clear H; subst
         end.

(** [parseInt] of a text without any hex digit is NaN, signs, white space
    and all. *)
Lemma parseInt16_no_digit (s : JsString) :
  Forall (fun c => isRadixDigit 16 c = false) s ->
  parseInt16 s = None.
Proof.
  intros H. apply trimStart_Forall in H. unfold parseInt16.
  generalize dependent (trimStart s). intros t Ht.
  destruct t as [|c t]; [reflexivity|].
  inversion Ht as [|? ? Hc Ht']; subst.
  assert (Hct : readDigits 16 (c :: t) None = None)
    by (apply readDigits_no_digit; constructor; assumption).
  assert (Htt : readDigits 16 t None = None)
    by (apply readDigits_no_digit; assumption).
  assert (Htail : forall d u, t = d :: u -> readDigits 16 u None = None).
  { intros d u ->. inversion Ht'; subst. apply readDigits_no_digit. assumption. }
  assert (Htail2 : forall d e u, t = d :: e :: u -> readDigits 16 u None = None).
  { intros d e u ->. inversion Ht' as [|? ? _ Hu]; subst.
    inversion Hu; subst. apply readDigits_no_digit. assumption. }
  clear Ht Ht'.
  destruct c as [|p|p];
    repeat (match goal with
            | |- context [match ?x with _ => _ end] => is_var x; destruct x
            end);
    try discriminate Hc;
    try (rewrite Hct; reflexivity);
    try (rewrite Htt; reflexivity);
    try (erewrite Htail by reflexivity; reflexivity);
    try (erewrite Htail2 by reflexivity; reflexivity).
Qed.

(** The decoder never fails on what is not hex: a text without any hex
    digit decodes to zero bytes, one for every two characters. *)
Theorem decode_no_digit (hex : JsString) :
  Forall (fun c => isRadixDigit 16 c = false) (stripMarker hex) ->
  hexToUint8Array hex = repeat x00 (length (stripMarker hex) / 2).
Proof.
  rewrite hexToUint8Array_decodePairs.
  generalize (stripMarker hex). intros s.
  induction s as [| a | a b s IH _] using list_ind2; intros H.
  - reflexivity.
  - reflexivity.
  - inversion H as [|? ? Ha H']; subst. inversion H' as [|? ? Hb H'']; subst.
    cbn [decodePairs length].
    replace (S (S (length s)) / 2)%nat with (S (length s / 2)).
    2:{ replace (S (S (length s))) with (1 * 2 + length s)%nat by lia.
        rewrite Nat.div_add_l by lia. lia. }
    cbn [repeat]. rewrite (IH H'').
    rewrite parseInt16_no_digit by (repeat constructor; assumption).
    reflexivity.
Qed.

Lemma decode_no_digit_witness :
  hexToUint8Array (lit "hi! join us now") = repeat x00 7.
Proof.
  apply (decode_no_digit (lit "hi! join us now")).
  apply Forall_forall. intros c Hc. apply list_elem_of_In in Hc.
  assert (H : forallb (fun c => negb (isRadixDigit 16 c))
                (stripMarker (lit "hi! join us now")) = true) by reflexivity.
  rewrite forallb_forall in H. apply H in Hc.
  destruct (isRadixDigit 16 c); [discriminate | reflexivity].
Defined.

Lemma hexByte_gate (x : byte) :
  match hexByte x with
  | [h; l] => (h =? 99) = ((0xc0 <=? byteValue x) && (byteValue x <=? 0xcf))
  | _ => False
  end.
Proof. destruct x; vm_compute; reflexivity. Qed.

(** Which binary envelopes the gate lets through, once encoded: those
    whose first byte lies between 0xc0 and 0xcf, and no others (the empty
    one is turned down). *)
Theorem gate_on_encoded (b : list byte) :
  containsPii (uint8ArrayToHex b) = true <->
  exists x rest, b = x :: rest /\ 0xc0 <= byteValue x <= 0xcf.
Proof.
  unfold containsPii, uint8ArrayToHex, join.
  destruct b as [|x b].
  - split; [discriminate | intros (x & rest & H & _); discriminate].
  - cbn [map concat]. pose proof (hexByte_gate x) as Hx.
    destruct (hexByte x) as [|h [|l [|]]]; try contradiction.
    change (startsWith (lit "\x" ++ [h; l] ++ concat (map hexByte b)) (lit "\xc"))
      with ((h =? 99) && true).
    rewrite andb_true_r, Hx, andb_true_iff, !Z.leb_le. split.
    + intros H. exists x, b. split; [reflexivity | exact H].
    + intros (x' & rest & E & H). injection E as <- _. exact H.
Qed.

(** The advisory heuristic and the gate of the decrypt operation are one
    and the same test: the operation turns a text down for its format
    exactly when [containsPii] is false of it. *)
Theorem gate_is_heuristic (text passphrase : JsString) :
  safe_pgp_sym_decrypt text passphrase = unsupportedFormat <->
  containsPii text = false.
Proof.
  unfold containsPii. split.
  - intros H. destruct (startsWith text (lit "\xc")) eqn:E; [|reflexivity].
    exfalso. unfold safe_pgp_sym_decrypt in H. rewrite E in H.
    cbn [negb] in H. destruct (falsy passphrase).
    + apply (f_equal (fun m : Async JsString =>
                        match m with
                        | ConsoleError _ (JsError msg) _ => length msg
                        | _ => O
                        end)) in H.
      vm_compute in H. discriminate.
    + discriminate.
  - apply safe_decrypt_gate.
Qed.

(** ** The two adapters in a world *)

(** The decrypt adapter resolves exactly when the text passes the gate,
    the passphrase is not empty and both library calls resolve, and then
    to the plaintext of the library.  Everything else is an [Error] whose
    message is "PGP decryption failed: " and the cause; a message that
    cannot be read is not handed to [openpgp.decrypt]. *)
Lemma run_safe_pgp_sym_decrypt (W : World) (text passphrase : JsString) (st : state W) :
  run W (safe_pgp_sym_decrypt text passphrase) st =
  if negb (startsWith text (lit "\xc")) then
    (Rejected (JsError (lit "PGP decryption failed: Only hex format starting with \xc is supported")), st)
  else if falsy passphrase then
    (Rejected (JsError (lit "PGP decryption failed: Passphrase is required for decryption")), st)
  else
    match handle W _ (OpenpgpReadMessage (hexToUint8Array text)) st with
    | (Rejected e, st1) =>
        (Rejected (JsError (lit "PGP decryption failed: " ++ errorMessage e)), st1)
    | (Fulfilled message, st1) =>
        match handle W _ (OpenpgpDecrypt message [passphrase] (Some (lit "utf8"))) st1 with
        | (Fulfilled decrypted, st2) => (Fulfilled decrypted, st2)
        | (Rejected e, st2) =>
            (Rejected (JsError (lit "PGP decryption failed: " ++ errorMessage e)), st2)
        end
    end.
Proof.
  unfold safe_pgp_sym_decrypt. rewrite run_tryCatch.
  destruct (startsWith text (lit "\xc")); cbn [negb]; [|reflexivity].
  destruct (falsy passphrase); [reflexivity|].
  unfold decryptPGP. rewrite run_bind, run_await.
  destruct (handle W _ (OpenpgpReadMessage (hexToUint8Array text)) st)
    as [[message|e] st1]; [|reflexivity].
  rewrite run_bind, run_await.
  destruct (handle W _ (OpenpgpDecrypt message [passphrase] (Some (lit "utf8"))) st1)
    as [[decrypted|e] st2]; reflexivity.
Qed.

(** The encrypt adapter: with a passphrase, the envelope is the hex of
    the bytes the library resolved to; when the library resolved to a text
    that is no number, it is the bare marker.  Every failure is an [Error]
    whose message is "PGP encryption failed: " and the cause. *)
Lemma run_safe_pgp_sym_encrypt (W : World) (plainText passphrase : JsString)
    (st : state W) :
  run W (safe_pgp_sym_encrypt plainText passphrase) st =
  if falsy passphrase then
    (Rejected (JsError (lit "PGP encryption failed: Passphrase is required for encryption")), st)
  else
    match handle W _ (OpenpgpCreateMessage plainText) st with
    | (Rejected e, st1) =>
        (Rejected (JsError (lit "PGP encryption failed: " ++ errorMessage e)), st1)
    | (Fulfilled message, st1) =>
        match handle W _ (OpenpgpEncrypt message [passphrase] None) st1 with
        | (Rejected e, st2) =>
            (Rejected (JsError (lit "PGP encryption failed: " ++ errorMessage e)), st2)
        | (Fulfilled (JsBytes b), st2) => (Fulfilled (uint8ArrayToHex b), st2)
        | (Fulfilled (JsStr s), st2) =>
            if isStringNumericLiteral s then
              match handle W _ (Uint8ArrayOfNumericString s) st2 with
              | (Fulfilled b, st3) => (Fulfilled (uint8ArrayToHex b), st3)
              | (Rejected e, st3) =>
                  (Rejected (JsError (lit "PGP encryption failed: " ++ errorMessage e)), st3)
              end
            else (Fulfilled (lit "\x"), st2)
        end
    end.
Proof.
  unfold safe_pgp_sym_encrypt. rewrite run_tryCatch.
  destruct (falsy passphrase); [reflexivity|].
  rewrite run_bind, run_await.
  destruct (handle W _ (OpenpgpCreateMessage plainText) st)
    as [[message|e] st1]; [|reflexivity].
  rewrite run_bind, run_await.
  destruct (handle W _ (OpenpgpEncrypt message [passphrase] None) st1)
    as [[[s|b]|e] st2]; [| reflexivity | reflexivity].
  rewrite run_bind. unfold newUint8Array.
  destruct (isStringNumericLiteral s); [|reflexivity].
  rewrite run_await.
  destruct (handle W _ (Uint8ArrayOfNumericString s) st2) as [[b|e] st3];
    reflexivity.
Qed.

(** The decrypt adapter resolves only by way of the library: the text
    passed the gate, the passphrase is not empty, the decoded bytes were
    read as a message, and that message decrypted, with the passphrase as
    the one password, to the very string the adapter resolves to. *)
Theorem decrypt_resolves_through_library (W : World)
    (text passphrase decrypted : JsString) (st st' : state W) :
  run W (safe_pgp_sym_decrypt text passphrase) st = (Fulfilled decrypted, st') ->
  containsPii text = true /\ passphrase <> [] /\
  exists message st1,
    handle W _ (OpenpgpReadMessage (hexToUint8Array text)) st
    = (Fulfilled message, st1) /\
    handle W _ (OpenpgpDecrypt message [passphrase] (Some (lit "utf8"))) st1
    = (Fulfilled decrypted, st').
Proof.
  rewrite run_safe_pgp_sym_decrypt. unfold containsPii.
  destruct (startsWith text (lit "\xc")); cbn [negb]; [|discriminate].
  destruct (falsy passphrase) eqn:Hp; [discriminate|].
  destruct (handle W _ (OpenpgpReadMessage (hexToUint8Array text)) st)
    as [[message|e] st1]; [|discriminate].
  destruct (handle W _ (OpenpgpDecrypt message [passphrase] (Some (lit "utf8"))) st1)
    as [[d|e] st2] eqn:E; [|discriminate].
  intros H. injection H as <- <-.
  split; [reflexivity|]. split; [intros ->; discriminate|].
  exists message, st1. split; [reflexivity | exact E].
Qed.

Lemma decrypt_resolves_through_library_witness :
  containsPii (lit "\xc3000002006b") = true /\ lit "k" <> [] /\
  exists message st1,
    handle Reference.world _
      (OpenpgpReadMessage (hexToUint8Array (lit "\xc3000002006b"))) O
    = (Fulfilled message, st1) /\
    handle Reference.world _
      (OpenpgpDecrypt message [lit "k"] (Some (lit "utf8"))) st1
    = (Fulfilled [], O).
Proof.
  apply (decrypt_resolves_through_library Reference.world
           (lit "\xc3000002006b") (lit "k") [] O O).
  reflexivity.
Defined.

(** Whatever the library resolved to, what the encrypt adapter resolves
    to is a hex envelope: the marker and two lower-case digits for each of
    some bytes, which decode back to them; and the passphrase was not
    empty. *)
Theorem encrypt_resolves_to_envelope (W : World)
    (plainText passphrase encrypted : JsString) (st st' : state W) :
  run W (safe_pgp_sym_encrypt plainText passphrase) st = (Fulfilled encrypted, st') ->
  passphrase <> [] /\
  exists b,
    encrypted = uint8ArrayToHex b /\ hexToUint8Array encrypted = b.
Proof.
  rewrite run_safe_pgp_sym_encrypt.
  destruct (falsy passphrase) eqn:Hp; [discriminate|].
  intros H. split; [intros ->; discriminate|].
  destruct (handle W _ (OpenpgpCreateMessage plainText) st) as [[m|e] sa];
    [|discriminate].
  destruct (handle W _ (OpenpgpEncrypt m [passphrase] None) sa) as [[[s|b]|e] sb];
    [| |discriminate].
  - destruct (isStringNumericLiteral s).
    + destruct (handle W _ (Uint8ArrayOfNumericString s) sb) as [[b|e] sc];
        [|discriminate].
      injection H as <- _. exists b. split; [reflexivity | apply decode_encode].
    + injection H as <- _. exists []. split; reflexivity.
  - injection H as <- _. exists b. split; [reflexivity | apply decode_encode].
Qed.

Lemma encrypt_resolves_to_envelope_witness :
  lit "secret" <> [] /\
  exists b,
    lit "\x" = uint8ArrayToHex b /\ hexToUint8Array (lit "\x") = b.
Proof.
  apply (encrypt_resolves_to_envelope Reference.world
           (lit "hello") (lit "secret") (lit "\x") O 1%nat).
  reflexivity.
Defined.

(** An encoded envelope that passes the gate reaches the library as the
    very bytes it encodes. *)
Theorem envelope_bytes_reach_library (b : list byte) (passphrase : JsString) :
  containsPii (uint8ArrayToHex b) = true -> passphrase <> [] ->
  exists k,
    safe_pgp_sym_decrypt (uint8ArrayToHex b) passphrase
    = Await (OpenpgpReadMessage b) k.
Proof.
  unfold containsPii. intros Hgate Hp.
  unfold safe_pgp_sym_decrypt, decryptPGP. rewrite Hgate, decode_encode.
  destruct passphrase as [|c p]; [contradiction|].
  eexists. reflexivity.
Qed.

Lemma envelope_bytes_reach_library_witness :
  exists k,
    safe_pgp_sym_decrypt (lit "\xc30d04") (lit "secret")
    = Await (OpenpgpReadMessage [xc3; x0d; x04]) k.
Proof.
  apply (envelope_bytes_reach_library [xc3; x0d; x04] (lit "secret"));
    [reflexivity | discriminate].
Defined.

(** ** What the operations call *)

Lemma everyCall_bind {A B : Type} (P : forall X : Type, Ext X -> Prop)
    (m : Async A) (f : A -> Async B) :
  everyCall P m -> (forall a, everyCall P (f a)) -> everyCall P (bind m f).
Proof.
  intros Hm Hf. induction m as [a | e | label e k IH | X c k IH]; cbn [bind everyCall] in *.
  - apply Hf.
  - exact I.
  - apply IH, Hm.
  - destruct Hm as [Hc Hk]. split; [exact Hc|]. intros r. apply IH, Hk.
Qed.

Lemma everyCall_tryCatch {A : Type} (P : forall X : Type, Ext X -> Prop)
    (m : Async A) (h : JsThrown -> Async A) :
  everyCall P m -> (forall e, everyCall P (h e)) -> everyCall P (tryCatch m h).
Proof.
  intros Hm Hh. induction m as [a | e | label e k IH | X c k IH];
    cbn [tryCatch everyCall] in *.
  - exact I.
  - apply Hh.
  - apply IH, Hm.
  - destruct Hm as [Hc Hk]. split; [exact Hc|]. intros r. apply IH, Hk.
Qed.

Lemma everyCall_await {X : Type} (P : forall X : Type, Ext X -> Prop) (c : Ext X) :
  P X c -> everyCall P (await c).
Proof. intros Hc. split; [exact Hc|]. intros [x|e]; exact I. Qed.

Lemma everyCall_weaken {A : Type} (P Q : forall X : Type, Ext X -> Prop)
    (m : Async A) :
  (forall X c, P X c -> Q X c) -> everyCall P m -> everyCall Q m.
Proof.
  intros HPQ. induction m as [a | e | label e k IH | X c k IH]; cbn [everyCall].
  - trivial.
  - trivial.
  - exact IH.
  - intros [Hc Hk]. split; [apply HPQ, Hc|]. intros r. apply IH, Hk.
Qed.

Lemma generateSHA256Hash_calls (toUppercase : Z -> list Z) (text : JsString) :
  everyCall digestCall (generateSHA256Hash toUppercase text).
Proof.
  unfold generateSHA256Hash. apply everyCall_bind.
  - apply everyCall_await. reflexivity.
  - intros h. exact I.
Qed.

Lemma hashStage_calls (toUppercase : Z -> list Z) (text : JsString)
    (locals : JsString * list JsString * Z) :
  everyCall digestCall (hashStage toUppercase text locals).
Proof.
  destruct locals as [[t types] n]. unfold hashStage.
  apply everyCall_bind; [apply generateSHA256Hash_calls | intros h; exact I].
Qed.

Lemma digestCall_decryptSide (text passphrase : JsString) (X : Type) (c : Ext X) :
  digestCall X c -> decryptSideCall text passphrase X c.
Proof. destruct c; cbn; tauto. Qed.

Lemma digestCall_encryptSide (text passphrase : JsString) (X : Type) (c : Ext X) :
  digestCall X c -> encryptSideCall text passphrase X c.
Proof. destruct c; cbn; tauto. Qed.

Lemma safe_decrypt_calls (text passphrase : JsString) :
  everyCall (decryptSideCall text passphrase) (safe_pgp_sym_decrypt text passphrase).
Proof.
  unfold safe_pgp_sym_decrypt. apply everyCall_tryCatch; [|intros e; exact I].
  destruct (negb (startsWith text (lit "\xc"))); [exact I|].
  destruct (falsy passphrase); [exact I|].
  unfold decryptPGP. apply everyCall_bind.
  - apply everyCall_await. reflexivity.
  - intros message. apply everyCall_bind.
    + apply everyCall_await. split; reflexivity.
    + intros d. exact I.
Qed.

Lemma safe_encrypt_calls (text passphrase : JsString) :
  everyCall (encryptSideCall text passphrase) (safe_pgp_sym_encrypt text passphrase).
Proof.
  unfold safe_pgp_sym_encrypt. apply everyCall_tryCatch; [|intros e; exact I].
  destruct (falsy passphrase); [exact I|].
  apply everyCall_bind.
  - apply everyCall_await. reflexivity.
  - intros message. apply everyCall_bind.
    + apply everyCall_await. split; reflexivity.
    + intros [s|b]; (apply everyCall_bind; [|intros x; exact I]).
      * unfold newUint8Array. destruct (isStringNumericLiteral s); [|exact I].
        apply everyCall_await. exact I.
      * exact I.
Qed.

(** The forward operation calls nothing but [openpgp.readMessage] on the
    decoded text, [openpgp.decrypt] with the passphrase as the one password
    and [format: "utf8"], and the SHA-256 digest: it never encrypts, and
    the passphrase goes nowhere else. *)
Theorem forward_calls (toUppercase : Z -> list Z) (text : JsString)
    (passphrase : option JsString) :
  everyCall (decryptSideCall text (passphraseString passphrase))
    (forwardTransform toUppercase text passphrase).
Proof.
  unfold forwardTransform, transformPiiData.
  destruct (falsy (trim text)); [exact I|].
  apply everyCall_bind.
  - unfold decryptStage. apply everyCall_tryCatch; [|intros e; exact I].
    destruct (passphraseMissing passphrase); [exact I|].
    apply everyCall_bind; [apply safe_decrypt_calls | intros d; exact I].
  - intros locals.
    apply (everyCall_weaken digestCall); [apply digestCall_decryptSide|].
    apply hashStage_calls.
Qed.

(** The backward operation calls nothing but [openpgp.createMessage] on
    the text as it is, [openpgp.encrypt] with the passphrase as the one
    password and no [format], the typed-array constructor, and the SHA-256
    digest: it never reads or decrypts a message. *)
Theorem backward_calls (toUppercase : Z -> list Z) (text : JsString)
    (passphrase : option JsString) :
  everyCall (encryptSideCall text (passphraseString passphrase))
    (backwardTransform toUppercase text passphrase).
Proof.
  unfold backwardTransform, backwardTransformPiiData.
  destruct (falsy (trim text)); [exact I|].
  apply everyCall_bind.
  - unfold encryptStage. apply everyCall_tryCatch; [|intros e; exact I].
    destruct (passphraseMissing passphrase); [exact I|].
    apply everyCall_bind; [apply safe_encrypt_calls | intros d; exact I].
  - intros locals.
    apply (everyCall_weaken digestCall); [apply digestCall_encryptSide|].
    apply hashStage_calls.
Qed.

(** When nothing can come of it, openpgp is not called: without a
    passphrase both operations call the digest only, and so does the forward
    operation on a text that does not pass the gate; on an empty or
    whitespace-only text neither operation calls anything at all. *)
Theorem no_library_call (toUppercase : Z -> list Z) (text : JsString)
    (passphrase : option JsString) :
  (passphraseMissing passphrase = true \/ containsPii text = false ->
   everyCall digestCall (forwardTransform toUppercase text passphrase)) /\
  (passphraseMissing passphrase = true ->
   everyCall digestCall (backwardTransform toUppercase text passphrase)) /\
  (whitespaceOnly text ->
   everyCall (fun _ _ => False) (forwardTransform toUppercase text passphrase) /\
   everyCall (fun _ _ => False) (backwardTransform toUppercase text passphrase)).
Proof.
  split; [|split].
  - intros H. unfold forwardTransform, transformPiiData.
    destruct (falsy (trim text)); [exact I|].
    apply everyCall_bind; [|intros locals; apply hashStage_calls].
    unfold decryptStage. apply everyCall_tryCatch; [|intros e; exact I].
    destruct (passphraseMissing passphrase) eqn:Hmiss; [exact I|].
    destruct H as [H | H]; [discriminate|].
    rewrite (safe_decrypt_gate text _ H). exact I.
  - intros Hmiss. unfold backwardTransform, backwardTransformPiiData.
    destruct (falsy (trim text)); [exact I|].
    apply everyCall_bind; [|intros locals; apply hashStage_calls].
    unfold encryptStage. rewrite Hmiss. exact I.
  - intros Hblank.
    unfold forwardTransform, backwardTransform, transformPiiData,
      backwardTransformPiiData.
    rewrite (proj2 (falsy_trim text) Hblank). split; exact I.
Qed.

Lemma no_library_call_witness :
  everyCall digestCall
    (forwardTransform Reference.asciiToUppercase (lit "not-an-envelope")
       (Some (lit "secret"))).
Proof.
  apply (proj1 (no_library_call Reference.asciiToUppercase
                  (lit "not-an-envelope") (Some (lit "secret")))).
  right. reflexivity.
Defined.

(** ** The results, with the digest as a function *)

Section WithDigest.

Variable W : World.
Variable toUppercase : Z -> list Z.
Variable sha : list byte -> list byte.
Hypothesis digest_is : digestIs W sha.

Lemma digestIs_fulfils : digestFulfils W.
Proof. intros data st. exists (sha data), st. apply (proj2 digest_is). Qed.

Lemma run_generateSHA256Hash_is (text : JsString) (st : state W) :
  run W (generateSHA256Hash toUppercase text) st = (Fulfilled (hashOf toUppercase sha text), st).
Proof.
  unfold generateSHA256Hash. rewrite run_bind, run_await.
  rewrite (proj2 digest_is). reflexivity.
Qed.

Lemma run_hashStage_is (text t : JsString) (types : list JsString) (n : Z)
    (st : state W) :
  run W (hashStage toUppercase text (t, types, n)) st
  = (Fulfilled {| originalText := text;
                  transformedText := t;
                  hashedText := Some (hashOf toUppercase sha t);
                  detectedPiiTypes := types ++ [lit "SHA256_HASHED"];
                  transformationCount := n + 1 |}, st).
Proof.
  unfold hashStage. rewrite run_bind, run_generateSHA256Hash_is. reflexivity.
Qed.

Lemma run_forward_is (text : JsString) (passphrase : option JsString)
    (st : state W) :
  ~ whitespaceOnly text ->
  exists t outcome st1,
    run W (decryptStage text passphrase (text, [], 0)) st
    = (Fulfilled (t, [outcome], 1), st1) /\
    run W (forwardTransform toUppercase text passphrase) st
    = (Fulfilled {| originalText := text;
                    transformedText := t;
                    hashedText := Some (hashOf toUppercase sha t);
                    detectedPiiTypes := [outcome; lit "SHA256_HASHED"];
                    transformationCount := 2 |}, st1).
Proof.
  intros Hblank.
  destruct (decryptStage_fulfils W text passphrase st) as (t & o & st1 & E & _).
  exists t, o, st1. split; [exact E|].
  unfold forwardTransform, transformPiiData.
  rewrite (trim_not_blank _ Hblank), run_bind, E, run_hashStage_is. reflexivity.
Qed.

Lemma run_backward_is (text : JsString) (passphrase : option JsString)
    (st : state W) :
  ~ whitespaceOnly text ->
  exists t outcome st1,
    run W (encryptStage text passphrase (text, [], 0)) st
    = (Fulfilled (t, [outcome], 1), st1) /\
    run W (backwardTransform toUppercase text passphrase) st
    = (Fulfilled {| originalText := text;
                    transformedText := t;
                    hashedText := Some (hashOf toUppercase sha t);
                    detectedPiiTypes := [outcome; lit "SHA256_HASHED"];
                    transformationCount := 2 |}, st1).
Proof.
  intros Hblank.
  destruct (encryptStage_fulfils W text passphrase st) as (t & o & st1 & E & _).
  exists t, o, st1. split; [exact E|].
  unfold backwardTransform, backwardTransformPiiData.
  rewrite (trim_not_blank _ Hblank), run_bind, E, run_hashStage_is. reflexivity.
Qed.

End WithDigest.

(** The digest in a result is the digest of its [transformedText],
    whichever way the crypto stage went: of the plaintext, of the envelope,
    or of the failure marker. *)
Theorem hash_of_transformed (W : World) (toUppercase : Z -> list Z)
    (sha : list byte -> list byte) :
  digestIs W sha ->
  forall (text : JsString) (passphrase : option JsString) (st : state W),
    ~ whitespaceOnly text ->
    (exists r st',
       run W (forwardTransform toUppercase text passphrase) st = (Fulfilled r, st') /\
       hashedText r = Some (hashOf toUppercase sha (transformedText r))) /\
    (exists r st',
       run W (backwardTransform toUppercase text passphrase) st = (Fulfilled r, st') /\
       hashedText r = Some (hashOf toUppercase sha (transformedText r))).
Proof.
  intros Hsha text passphrase st Hblank. split.
  - destruct (run_forward_is W toUppercase sha Hsha text passphrase st Hblank)
      as (t & o & st1 & _ & ->).
    do 2 eexists. split; reflexivity.
  - destruct (run_backward_is W toUppercase sha Hsha text passphrase st Hblank)
      as (t & o & st1 & _ & ->).
    do 2 eexists. split; reflexivity.
Qed.

Lemma hash_of_transformed_witness :
  exists r st',
    run Reference.world
      (forwardTransform Reference.asciiToUppercase (lit "not-an-envelope")
         (Some (lit "secret"))) O
    = (Fulfilled r, st') /\
    hashedText r
    = Some (hashOf Reference.asciiToUppercase SHA256.digest (transformedText r)).
Proof.
  apply (hash_of_transformed Reference.world Reference.asciiToUppercase
           SHA256.digest reference_sha (lit "not-an-envelope")
           (Some (lit "secret")) O).
  apply (not_blank_head 110). reflexivity.
Defined.

(** When the guarded crypto call resolves, its value is the transformed
    text as it is, under the success label: the plaintext of the library in
    the forward operation, the envelope in the backward one. *)
Theorem success_is_passed_on (W : World) (toUppercase : Z -> list Z) :
  digestFulfils W ->
  forall (text : JsString) (passphrase : option JsString) (st st1 : state W)
         (value : JsString),
    ~ whitespaceOnly text -> passphraseMissing passphrase = false ->
    (run W (safe_pgp_sym_decrypt text (passphraseString passphrase)) st
     = (Fulfilled value, st1) ->
     exists r st',
       run W (forwardTransform toUppercase text passphrase) st = (Fulfilled r, st') /\
       transformedText r = value /\
       detectedPiiTypes r = [lit "PGP_DECRYPTED"; lit "SHA256_HASHED"]) /\
    (run W (safe_pgp_sym_encrypt text (passphraseString passphrase)) st
     = (Fulfilled value, st1) ->
     exists r st',
       run W (backwardTransform toUppercase text passphrase) st = (Fulfilled r, st') /\
       transformedText r = value /\
       detectedPiiTypes r = [lit "PGP_ENCRYPTED"; lit "SHA256_HASHED"]).
Proof.
  intros Hd text passphrase st st1 value Hblank Hmiss. split; intros Hrun.
  - destruct (run_forward W toUppercase Hd text passphrase st Hblank)
      as (t & types & n & sa & h & sb & E1 & E2).
    rewrite run_decryptStage, Hmiss, Hrun in E1. injection E1 as <- <- _ _.
    rewrite E2. do 2 eexists. split; [reflexivity|]. split; reflexivity.
  - destruct (run_backward W toUppercase Hd text passphrase st Hblank)
      as (t & types & n & sa & h & sb & E1 & E2).
    rewrite run_encryptStage, Hmiss, Hrun in E1. injection E1 as <- <- _ _.
    rewrite E2. do 2 eexists. split; [reflexivity|]. split; reflexivity.
Qed.

Lemma success_is_passed_on_witness :
  exists r st',
    run Reference.world
      (forwardTransform Reference.asciiToUppercase
         (lit "\xc3000002006b00680069") (Some (lit "k"))) O
    = (Fulfilled r, st') /\
    transformedText r = lit "hi" /\
    detectedPiiTypes r = [lit "PGP_DECRYPTED"; lit "SHA256_HASHED"].
Proof.
  apply (proj1 (success_is_passed_on Reference.world Reference.asciiToUppercase
                  reference_digest (lit "\xc3000002006b00680069")
                  (Some (lit "k")) O O (lit "hi")
                  (not_blank_head 92 _ eq_refl) eq_refl)).
  reflexivity.
Defined.

(** A text that is not blank and does not pass the gate, with a
    passphrase: the whole result is fixed, whatever the passphrase and
    whatever openpgp would do, and the world is left as it was. *)
Theorem rejected_text_result (W : World) (toUppercase : Z -> list Z)
    (sha : list byte -> list byte) :
  digestIs W sha ->
  forall (text k : JsString) (st : state W),
    ~ whitespaceOnly text -> containsPii text = false -> k <> [] ->
    run W (forwardTransform toUppercase text (Some k)) st
    = (Fulfilled
         {| originalText := text;
            transformedText := unsupportedFormatMarker;
            hashedText := Some (hashOf toUppercase sha unsupportedFormatMarker);
            detectedPiiTypes := [lit "DECRYPTION_ERROR"; lit "SHA256_HASHED"];
            transformationCount := 2 |}, st).
Proof.
  intros Hsha text k st Hblank Hgate Hk.
  destruct (run_forward_is W toUppercase sha Hsha text (Some k) st Hblank)
    as (t & o & st1 & E1 & ->).
  rewrite run_decryptStage in E1.
  assert (Hmiss : passphraseMissing (Some k) = false)
    by (destruct k; [contradiction | reflexivity]).
  rewrite Hmiss in E1. cbn [passphraseString] in E1.
  rewrite (safe_decrypt_gate text k Hgate) in E1.
  cbn [run unsupportedFormat] in E1. injection E1 as <- <- <-. reflexivity.
Qed.

Lemma rejected_text_result_witness :
  fst (run Reference.world
         (forwardTransform Reference.asciiToUppercase (lit "not-an-envelope")
            (Some (lit "secret"))) O)
  = Fulfilled
      {| originalText := lit "not-an-envelope";
         transformedText := unsupportedFormatMarker;
         hashedText :=
           Some (hashOf Reference.asciiToUppercase SHA256.digest
                   unsupportedFormatMarker);
         detectedPiiTypes := [lit "DECRYPTION_ERROR"; lit "SHA256_HASHED"];
         transformationCount := 2 |}.
Proof.
  rewrite (rejected_text_result Reference.world Reference.asciiToUppercase
             SHA256.digest reference_sha (lit "not-an-envelope") (lit "secret") O
             (not_blank_head 110 _ eq_refl) eq_refl ltac:(discriminate)).
  reflexivity.
Defined.

(** The blank test trims the text, the gate does not: an envelope with
    white space in front of it is not blank and never gets past the gate.
    With a passphrase it is turned down for its format; without one the
    operation stops at the passphrase, as it does for every text. *)
Theorem leading_whitespace_rejected (W : World) (toUppercase : Z -> list Z) :
  digestFulfils W ->
  forall (c : Z) (text : JsString) (passphrase : option JsString)
         (st : state W),
    isWhiteSpace c = true -> ~ whitespaceOnly text ->
    exists r st',
      run W (forwardTransform toUppercase (c :: text) passphrase) st
      = (Fulfilled r, st') /\
      transformedText r
      = (if passphraseMissing passphrase
         then lit "[DECRYPTION_FAILED: Passphrase is required for decryption]"
         else unsupportedFormatMarker) /\
      detectedPiiTypes r = [lit "DECRYPTION_ERROR"; lit "SHA256_HASHED"].
Proof.
  intros Hd c text passphrase st Hc Hblank.
  assert (Hblank' : ~ whitespaceOnly (c :: text)).
  { intros H. inversion H; subst. contradiction. }
  assert (Hgate : startsWith (c :: text) (lit "\xc") = false).
  { change (lit "\xc") with [92; 120; 99]. cbn [startsWith].
    destruct (Z.eqb_spec c 92) as [-> | _]; [discriminate Hc | reflexivity]. }
  destruct (run_forward W toUppercase Hd (c :: text) passphrase st Hblank')
    as (t & types & n & st1 & h & st2 & E1 & E2).
  rewrite E2. do 2 eexists. split; [reflexivity|].
  cbn [transformedText detectedPiiTypes].
  rewrite run_decryptStage in E1.
  destruct (passphraseMissing passphrase).
  - injection E1 as <- <- _ _. split; reflexivity.
  - rewrite (safe_decrypt_gate _ (passphraseString passphrase) Hgate) in E1.
    cbn [run unsupportedFormat] in E1. injection E1 as <- <- _ _.
    split; reflexivity.
Qed.

Lemma leading_whitespace_rejected_witness :
  exists r st',
    run Reference.world
      (forwardTransform Reference.asciiToUppercase
         (32 :: lit "\xc3000002006b00680069") (Some (lit "k"))) O
    = (Fulfilled r, st') /\
    transformedText r = unsupportedFormatMarker /\
    detectedPiiTypes r = [lit "DECRYPTION_ERROR"; lit "SHA256_HASHED"].
Proof.
  apply (leading_whitespace_rejected Reference.world Reference.asciiToUppercase
           reference_digest 32 (lit "\xc3000002006b00680069") (Some (lit "k")) O).
  - reflexivity.
  - apply (not_blank_head 92). reflexivity.
Defined.

(** The digest tells texts apart by their UTF-8 form only: any two lone
    surrogates, which [TextEncoder] both writes as U+FFFD, have the same
    digest. *)
Theorem lone_surrogates_collide (toUppercase : Z -> list Z) :
  UpperCaseTable toUppercase ->
  forall c1 c2, isSurrogate c1 = true -> isSurrogate c2 = true ->
    generateSHA256Hash toUppercase [c1] = generateSHA256Hash toUppercase [c2].
Proof.
  intros table c1 c2 H1 H2.
  assert (Henc : forall c, isSurrogate c = true ->
            TextEncoder_encode (toUpperCase toUppercase [c])
            = utf8EncodeCodePoint 0xFFFD).
  { intros c Hc. unfold toUpperCase, upperAll.
    cbn [StringToCodePoints map concat].
    rewrite (upper_surrogate _ table c Hc).
    cbn [app CodePointsToString map concat]. unfold UTF16EncodeCodePoint.
    replace (c <=? 0xFFFF) with true by (symmetry; ranges).
    unfold TextEncoder_encode. cbn [app StringToCodePoints map concat].
    rewrite Hc. apply app_nil_r. }
  unfold generateSHA256Hash. rewrite (Henc c1 H1), (Henc c2 H2). reflexivity.
Qed.

Lemma lone_surrogates_collide_witness :
  generateSHA256Hash Reference.asciiToUppercase [0xD800]
  = generateSHA256Hash Reference.asciiToUppercase [0xDFFF].
Proof.
  apply (lone_surrogates_collide Reference.asciiToUppercase reference_table);
    reflexivity.
Defined.

(** ** The two components *)

(** The [PiiAnalysis] component shows nothing exactly for a blank text,
    the yellow box exactly for a text that starts with the marker and c, and
    then with the one entry SPECIFIC_HEX_PGP and the count 1, which is the
    name of an enabled pattern of the catalog; for every other text it says
    that nothing was detected. *)
Theorem PiiAnalysis_views (text : JsString) :
  (PiiAnalysisComponent text = NoPanel <-> whitespaceOnly text) /\
  (PiiAnalysisComponent text = FoundPii [(lit "SPECIFIC_HEX_PGP", 1)]
   <-> containsPii text = true) /\
  (PiiAnalysisComponent text = NoPiiDetected
   <-> ~ whitespaceOnly text /\ containsPii text = false) /\
  (forall detectedTypes,
     PiiAnalysisComponent text = FoundPii detectedTypes ->
     exists p, In p getAvailablePatterns /\ enabled p = true /\
               detectedTypes = [(name p, 1)]).
Proof.
  assert (Hgate : containsPii text = true -> ~ whitespaceOnly text).
  { unfold containsPii. intros H Hblank.
    apply (startsWith_spec (lit "\xc")) in H as [rest ->].
    inversion Hblank; discriminate. }
  unfold PiiAnalysisComponent, analyzePiiData, containsPii in *.
  destruct (whitespaceOnly_dec text) as [Hblank | Hblank].
  - rewrite (proj2 (falsy_trim text) Hblank).
    destruct (startsWith text (lit "\xc")) eqn:E.
    + exfalso. apply Hgate; [reflexivity | exact Hblank].
    + split; [tauto|]. split; [split; discriminate|].
      split; [split; [discriminate | tauto]|]. discriminate.
  - rewrite (trim_not_blank text Hblank).
    destruct (startsWith text (lit "\xc")) eqn:E; cbn [hasAnyPii negb].
    + split; [split; [discriminate | contradiction]|].
      split; [split; reflexivity|].
      split; [split; [discriminate | intros [_ H]; discriminate]|].
      intros l H. injection H as <-.
      eexists. split; [left; reflexivity|]. split; reflexivity.
    + split; [split; [discriminate | contradiction]|].
      split; [split; discriminate|].
      split; [tauto|]. discriminate.
Qed.

Lemma PiiAnalysis_views_witness :
  exists p, In p getAvailablePatterns /\ enabled p = true /\
            [(lit "SPECIFIC_HEX_PGP", 1)] = [(name p, 1)].
Proof.
  apply (proj2 (proj2 (proj2 (PiiAnalysis_views (lit "\xc30d04070302"))))
           [(lit "SPECIFIC_HEX_PGP", 1)]).
  reflexivity.
Defined.

Section Views.

Variable W : World.
Variable toUppercase : Z -> list Z.
Variable sha : list byte -> list byte.
Hypothesis digest_is : digestIs W sha.

Lemma hashOf_length (text : JsString) :
  length (hashOf toUppercase sha text) = 64%nat.
Proof.
  unfold hashOf. rewrite (proj1 (hex_format _)), (proj1 digest_is). reflexivity.
Qed.

Lemma hashOf_truthy (text : JsString) : falsy (hashOf toUppercase sha text) = false.
Proof.
  pose proof (hashOf_length text) as H.
  destruct (hashOf toUppercase sha text); [discriminate | reflexivity].
Qed.

(** The panel for a result with two stages and a text to show. *)
Lemma staged_view (text t outcome : JsString) :
  t <> [] ->
  TransformationResultComponent
    (Some {| originalText := text;
             transformedText := t;
             hashedText := Some (hashOf toUppercase sha t);
             detectedPiiTypes := [outcome; lit "SHA256_HASHED"];
             transformationCount := 2 |})
  = ResultPanel
      (Some {| shownCount := 2; pluralEnding := lit "s";
               shownTypes := [outcome; lit "SHA256_HASHED"] |})
      t (Some (hashOf toUppercase sha t)).
Proof.
  intros Ht. unfold TransformationResultComponent.
  cbn [transformedText transformationCount detectedPiiTypes hashedText].
  destruct t as [|c t]; [contradiction|]. cbn [falsy].
  rewrite hashOf_truthy. reflexivity.
Qed.

Lemma safe_encrypt_nonempty (text k encrypted : JsString) (st st1 : state W) :
  run W (safe_pgp_sym_encrypt text k) st = (Fulfilled encrypted, st1) ->
  encrypted <> [].
Proof.
  rewrite run_safe_pgp_sym_encrypt.
  destruct (falsy k); [discriminate|].
  destruct (handle W _ (OpenpgpCreateMessage text) st) as [[m|e] sa];
    [|discriminate].
  destruct (handle W _ (OpenpgpEncrypt m [k] None) sa) as [[[s|b]|e] sb];
    [| |discriminate].
  - destruct (isStringNumericLiteral s).
    + destruct (handle W _ (Uint8ArrayOfNumericString s) sb) as [[b|e] sc];
        [|discriminate].
      intros H. injection H as <- _. discriminate.
    + intros H. injection H as <- _. discriminate.
  - intros H. injection H as <- _. discriminate.
Qed.

End Views.

(** Whatever became of the encryption, the component shows the result of
    the backward operation under the green line "2 PII items detected and
    transformed", with its two labels, its text and its hash of 64
    characters: a failure is shown as a success with a marker for a text. *)
Theorem backward_view (W : World) (toUppercase : Z -> list Z)
    (sha : list byte -> list byte) :
  digestIs W sha ->
  forall (text : JsString) (passphrase : option JsString) (st : state W),
    ~ whitespaceOnly text ->
    exists r st',
      run W (backwardTransform toUppercase text passphrase) st = (Fulfilled r, st') /\
      TransformationResultComponent (Some r)
      = ResultPanel
          (Some {| shownCount := 2; pluralEnding := lit "s";
                   shownTypes := detectedPiiTypes r |})
          (transformedText r) (hashedText r) /\
      exists h, hashedText r = Some h /\ length h = 64%nat.
Proof.
  intros Hsha text passphrase st Hblank.
  destruct (run_backward_is W toUppercase sha Hsha text passphrase st Hblank)
    as (t & o & st1 & E1 & ->).
  do 2 eexists. split; [reflexivity|].
  cbn [detectedPiiTypes transformedText hashedText].
  split; [|eexists; split;
             [reflexivity | apply (hashOf_length W toUppercase sha Hsha)]].
  apply (staged_view W toUppercase sha Hsha).
  rewrite run_encryptStage in E1.
  destruct (passphraseMissing passphrase).
  - injection E1 as <- _ _. discriminate.
  - destruct (run W (safe_pgp_sym_encrypt text (passphraseString passphrase)) st)
      as [[x|e] sa] eqn:E; injection E1 as <- _ _.
    + apply (safe_encrypt_nonempty W _ _ _ _ _ E).
    + discriminate.
Qed.

Lemma backward_view_witness :
  exists r st',
    run Reference.world
      (backwardTransform Reference.asciiToUppercase (lit "hello") None) O
    = (Fulfilled r, st') /\
    TransformationResultComponent (Some r)
    = ResultPanel
        (Some {| shownCount := 2; pluralEnding := lit "s";
                 shownTypes := detectedPiiTypes r |})
        (transformedText r) (hashedText r) /\
    exists h, hashedText r = Some h /\ length h = 64%nat.
Proof.
  apply (backward_view Reference.world Reference.asciiToUppercase SHA256.digest
           reference_sha (lit "hello") None O).
  apply (not_blank_head 104). reflexivity.
Defined.

(** The forward operation is shown the same way, with one exception: the
    component takes an empty [transformedText] for no result, so a
    decryption that succeeded with the empty plaintext, and nothing else,
    brings up the placeholder. *)
Theorem forward_view (W : World) (toUppercase : Z -> list Z)
    (sha : list byte -> list byte) :
  digestIs W sha ->
  forall (text : JsString) (passphrase : option JsString) (st : state W),
    ~ whitespaceOnly text ->
    exists r st',
      run W (forwardTransform toUppercase text passphrase) st = (Fulfilled r, st') /\
      (transformedText r = [] <->
       passphraseMissing passphrase = false /\
       exists st1,
         run W (safe_pgp_sym_decrypt text (passphraseString passphrase)) st
         = (Fulfilled [], st1)) /\
      (transformedText r = [] ->
       TransformationResultComponent (Some r) = Placeholder) /\
      (transformedText r <> [] ->
       TransformationResultComponent (Some r)
       = ResultPanel
           (Some {| shownCount := 2; pluralEnding := lit "s";
                    shownTypes := detectedPiiTypes r |})
           (transformedText r) (hashedText r)).
Proof.
  intros Hsha text passphrase st Hblank.
  destruct (run_forward_is W toUppercase sha Hsha text passphrase st Hblank)
    as (t & o & st1 & E1 & ->).
  do 2 eexists. split; [reflexivity|].
  cbn [detectedPiiTypes transformedText hashedText].
  split; [|split].
  - rewrite run_decryptStage in E1.
    destruct (passphraseMissing passphrase).
    + injection E1 as <- _ _. split; [discriminate | intros [H _]; discriminate].
    + destruct (run W (safe_pgp_sym_decrypt text (passphraseString passphrase)) st)
        as [[d|e] sa]; injection E1 as <- _ _.
      * split.
        -- intros ->. split; [reflexivity | eauto].
        -- intros [_ [sb H]]. injection H as -> _. reflexivity.
      * split; [discriminate | intros [_ [sb H]]; discriminate].
  - intros ->. reflexivity.
  - intros Ht. apply (staged_view W toUppercase sha Hsha). exact Ht.
Qed.

Lemma forward_view_witness :
  exists r st',
    run Reference.world
      (forwardTransform Reference.asciiToUppercase (lit "\xc3000002006b")
         (Some (lit "k"))) O
    = (Fulfilled r, st') /\
    TransformationResultComponent (Some r) = Placeholder.
Proof.
  destruct (forward_view Reference.world Reference.asciiToUppercase SHA256.digest
              reference_sha (lit "\xc3000002006b") (Some (lit "k")) O
              (not_blank_head 92 _ eq_refl))
    as (r & st' & Hrun & Hempty & Hplace & _).
  exists r, st'. split; [exact Hrun|].
  apply Hplace, Hempty. split; [reflexivity|]. exists O. reflexivity.
Defined.

(** Without the decryption stage the line is in the singular: "1 PII
    item", with the digest label alone, over the text as it was given. *)
Theorem undecrypted_view (W : World) (toUppercase : Z -> list Z)
    (sha : list byte -> list byte) :
  digestIs W sha ->
  forall (text : JsString) (passphrase : option JsString) (st : state W),
    ~ whitespaceOnly text ->
    exists r,
      run W (transformPiiData toUppercase text None passphrase) st
      = (Fulfilled r, st) /\
      TransformationResultComponent (Some r)
      = ResultPanel
          (Some {| shownCount := 1; pluralEnding := [];
                   shownTypes := [lit "SHA256_HASHED"] |})
          text (Some (hashOf toUppercase sha text)).
Proof.
  intros Hsha text passphrase st Hblank.
  unfold transformPiiData. rewrite (trim_not_blank _ Hblank).
  cbn [bind]. rewrite (run_hashStage_is W toUppercase sha Hsha).
  eexists. split; [reflexivity|].
  unfold TransformationResultComponent.
  cbn [transformedText transformationCount detectedPiiTypes hashedText].
  destruct text as [|c text]; [exfalso; apply Hblank; constructor|].
  cbn [falsy]. rewrite (hashOf_truthy W toUppercase sha Hsha). reflexivity.
Qed.

Lemma undecrypted_view_witness :
  exists r,
    run Reference.world
      (transformPiiData Reference.asciiToUppercase (lit "abc") None None) O
    = (Fulfilled r, O) /\
    TransformationResultComponent (Some r)
    = ResultPanel
        (Some {| shownCount := 1; pluralEnding := [];
                 shownTypes := [lit "SHA256_HASHED"] |})
        (lit "abc")
        (Some (hashOf Reference.asciiToUppercase SHA256.digest (lit "abc"))).
Proof.
  apply (undecrypted_view Reference.world Reference.asciiToUppercase SHA256.digest
           reference_sha (lit "abc") None O).
  apply (not_blank_head 97). reflexivity.
Defined.

(** ** The page *)

(** Either operation, as the page calls it, on a text that is not blank
    and in a world whose digest call resolves. *)
Lemma run_page_operation (W : World) (toUppercase : Z -> list Z)
    (backward : bool) (text : JsString) (passphrase : option JsString)
    (st : state W) :
  digestFulfils W -> ~ whitespaceOnly text ->
  exists t outcome h st',
    run W (if backward
           then backwardTransformPiiData toUppercase text passphrase
           else transformPiiData toUppercase text (Some true) passphrase) st
    = (Fulfilled {| originalText := text;
                    transformedText := t;
                    hashedText := Some h;
                    detectedPiiTypes := [outcome; lit "SHA256_HASHED"];
                    transformationCount := 2 |}, st').
Proof.
  intros Hd Hblank. destruct backward.
  - unfold backwardTransformPiiData.
    rewrite (trim_not_blank _ Hblank), run_bind.
    destruct (encryptStage_fulfils W text passphrase st) as (t & o & st1 & -> & _).
    destruct (run_hashStage W toUppercase Hd text t [o] 1 st1) as (h & st2 & E).
    exists t, o, h, st2. exact E.
  - unfold transformPiiData.
    rewrite (trim_not_blank _ Hblank), run_bind.
    destruct (decryptStage_fulfils W text passphrase st) as (t & o & st1 & -> & _).
    destruct (run_hashStage W toUppercase Hd text t [o] 1 st1) as (h & st2 & E).
    exists t, o, h, st2. exact E.
Qed.

(** A click on the enabled button, in a world whose digest call resolves:
    once the handler has settled the page holds the result of the operation
    of the mode it was clicked in, on the input and with the passphrase as
    they were, with both stages counted; nothing else of the state has
    changed, and the button is enabled again. *)
Theorem click_settles (W : World) (toUppercase : Z -> list Z) :
  digestFulfils W ->
  forall (s : PageState) (st : state W),
    buttonDisabled s = false ->
    exists r st',
      run W (if isBackwardMode s
             then backwardTransform toUppercase (inputText s) (Some (passphrase s))
             else forwardTransform toUppercase (inputText s) (Some (passphrase s)))
        st
      = (Fulfilled r, st') /\
      settled W toUppercase s st
      = ({| inputText := inputText s;
            transformationResult := Some r;
            isProcessing := false;
            passphrase := passphrase s;
            isBackwardMode := isBackwardMode s |}, st') /\
      originalText r = inputText s /\
      transformationCount r = 2 /\
      buttonDisabled (fst (settled W toUppercase s st)) = false.
Proof.
  intros Hd s st Hbtn. unfold buttonDisabled in Hbtn.
  destruct (falsy (trim (inputText s))) eqn:Hin; [discriminate|].
  destruct (falsy (trim (passphrase s))) eqn:Hp; [discriminate|].
  assert (Hblank : ~ whitespaceOnly (inputText s)).
  { intros H. apply falsy_trim in H. congruence. }
  destruct (run_page_operation W toUppercase (isBackwardMode s) (inputText s)
              (Some (passphrase s)) st Hd Hblank) as (t & o & h & st' & E).
  assert (Hs : settled W toUppercase s st
               = ({| inputText := inputText s;
                     transformationResult :=
                       Some {| originalText := inputText s;
                               transformedText := t;
                               hashedText := Some h;
                               detectedPiiTypes := [o; lit "SHA256_HASHED"];
                               transformationCount := 2 |};
                     isProcessing := false;
                     passphrase := passphrase s;
                     isBackwardMode := isBackwardMode s |}, st')).
  { unfold settled, handleTransformPiiData. rewrite Hin.
    cbn [operation onResult]. rewrite E. reflexivity. }
  do 2 eexists. split; [exact E|]. split; [exact Hs|].
  split; [reflexivity|]. split; [reflexivity|].
  rewrite Hs. unfold buttonDisabled.
  cbn [fst inputText passphrase isProcessing]. rewrite Hin, Hp. reflexivity.
Qed.

Lemma click_settles_witness :
  exists r st',
    run Reference.world
      (backwardTransform Reference.asciiToUppercase (lit "hello")
         (Some (lit "secret"))) O
    = (Fulfilled r, st') /\
    settled Reference.world Reference.asciiToUppercase
      {| inputText := lit "hello"; transformationResult := None;
         isProcessing := false; passphrase := lit "secret";
         isBackwardMode := true |} O
    = ({| inputText := lit "hello"; transformationResult := Some r;
          isProcessing := false; passphrase := lit "secret";
          isBackwardMode := true |}, st') /\
    originalText r = lit "hello" /\
    transformationCount r = 2 /\
    buttonDisabled
      (fst (settled Reference.world Reference.asciiToUppercase
              {| inputText := lit "hello"; transformationResult := None;
                 isProcessing := false; passphrase := lit "secret";
                 isBackwardMode := true |} O))
    = false.
Proof.
  apply (click_settles Reference.world Reference.asciiToUppercase
           reference_digest
           {| inputText := lit "hello"; transformationResult := None;
              isProcessing := false; passphrase := lit "secret";
              isBackwardMode := true |} O).
  reflexivity.
Defined.

(** The handler has no [catch] and no [finally].  When the operation
    rejects, which only the digest call can bring about, the page is left
    as the click put it: still processing, with the result it had, and the
    button disabled. *)
Theorem rejection_leaves_processing (W : World) (toUppercase : Z -> list Z)
    (s : PageState) (st st' : state W) (e : JsThrown) :
  ~ whitespaceOnly (inputText s) ->
  run W (if isBackwardMode s
         then backwardTransform toUppercase (inputText s) (Some (passphrase s))
         else forwardTransform toUppercase (inputText s) (Some (passphrase s)))
    st
  = (Rejected e, st') ->
  settled W toUppercase s st = (setIsProcessing true s, st') /\
  buttonDisabled (setIsProcessing true s) = true /\
  exists data st1,
    handle W _ (SubtleDigest (lit "SHA-256") data) st1 = (Rejected e, st').
Proof.
  intros Hblank H. split; [|split].
  - unfold settled, handleTransformPiiData.
    rewrite (trim_not_blank _ Hblank). cbn [operation onResult].
    unfold backwardTransform, forwardTransform in H. rewrite H. reflexivity.
  - unfold buttonDisabled, setIsProcessing. cbn [isProcessing].
    apply orb_true_r.
  - destruct (isBackwardMode s).
    + exact (backward_rejection W toUppercase _ _ st e st' H).
    + exact (forward_rejection W toUppercase _ _ st e st' H).
Qed.

Lemma rejection_leaves_processing_witness :
  settled insecureWorld Reference.asciiToUppercase
    {| inputText := lit "hello"; transformationResult := None;
       isProcessing := false; passphrase := lit "secret";
       isBackwardMode := true |} O
  = ({| inputText := lit "hello"; transformationResult := None;
        isProcessing := true; passphrase := lit "secret";
        isBackwardMode := true |}, 1%nat) /\
  buttonDisabled
    {| inputText := lit "hello"; transformationResult := None;
       isProcessing := true; passphrase := lit "secret";
       isBackwardMode := true |}
  = true /\
  exists data st1,
    handle insecureWorld _ (SubtleDigest (lit "SHA-256") data) st1
    = (Rejected
         (JsError (lit "Cannot read properties of undefined (reading 'digest')")),
       1%nat).
Proof.
  apply (rejection_leaves_processing insecureWorld Reference.asciiToUppercase
           {| inputText := lit "hello"; transformationResult := None;
              isProcessing := false; passphrase := lit "secret";
              isBackwardMode := true |} O 1%nat
           (JsError (lit "Cannot read properties of undefined (reading 'digest')"))).
  - apply (not_blank_head 104). reflexivity.
  - reflexivity.
Defined.

(** The copy button is part of the panel, and what it writes to the
    clipboard is the text the panel shows; while the component shows the
    placeholder, also for a result whose text is empty, the handler writes
    nothing. *)
Theorem copy_is_what_is_shown (s : PageState) :
  match TransformationResultComponent (transformationResult s) with
  | Placeholder => handleCopyTransformed s = None
  | ResultPanel _ shown _ => handleCopyTransformed s = Some shown
  end.
Proof.
  unfold TransformationResultComponent, handleCopyTransformed.
  destruct (transformationResult s) as [r|]; [|reflexivity].
  destruct (falsy (transformedText r)); reflexivity.
Qed.
